(** * Verification of the order-to-print dispatch engine

    A shallow embedding of [printer.js] (ESC/POS builder, kitchen
    partitioning, slip construction, per-order dispatch) and of the
    trigger handling in [index.js] (trigger qualification, the
    printed-orders ledger), followed by the properties proved about them. *)

From Stdlib Require Import Strings.Ascii Strings.String.
From Stdlib Require Import ZArith Lia.
From Stdlib Require Import Floats.PrimFloat Floats.SpecFloat Floats.FloatOps.
From stdpp Require Import base list sorting gmap.

Set Warnings "-inexact-float".
Local Open Scope Z_scope.

(* ================================================================== *)
(** * JavaScript values used by the program *)

(** A JavaScript string is a sequence of UTF-16 code units. *)
Abbreviation jsstring := (list Z).

Definition code_of (a : ascii) : Z := Z.of_nat (nat_of_ascii a).

(** Literals of the source that are plain ASCII. *)
Fixpoint js (s : string) : jsstring :=
  match s with
  | EmptyString => []
  | String a s' => code_of a :: js s'
  end.

(** The box-drawing character U+2500 used for rules. *)
Definition BOX_DASH : jsstring := [0x2500].

(** Truthiness of a possibly null string: [null], [undefined] and the
    empty string are falsy. *)
Definition truthy_str (s : option jsstring) : bool :=
  match s with
  | Some (_ :: _) => true
  | _ => false
  end.

(** [a || b] on strings. *)
Definition or_str (a : option jsstring) (b : jsstring) : jsstring :=
  match a with
  | Some (c :: s) => c :: s
  | _ => b
  end.

(** [null], [undefined] and [0] are falsy numbers. *)
Definition truthy_num (n : option Z) : bool :=
  match n with
  | Some z => negb (z =? 0)
  | None => false
  end.

Definition str_repeat (s : jsstring) (n : nat) : jsstring :=
  mjoin (replicate n s).

Definition substring_to (s : jsstring) (n : nat) : jsstring := take n s.
Definition substring_from (s : jsstring) (n : nat) : jsstring := drop n s.

Definition SPACE : Z := 32.

Definition padStart (s : jsstring) (width : nat) (c : Z) : jsstring :=
  replicate (width - length s)%nat c ++ s.

Definition padEnd (s : jsstring) (width : nat) (c : Z) : jsstring :=
  s ++ replicate (width - length s)%nat c.

Definition jsstring_eqb (a b : jsstring) : bool := bool_decide (a = b).

(** ** Numbers *)

Fixpoint uint_digits (u : Decimal.uint) : jsstring :=
  match u with
  | Decimal.Nil => []
  | Decimal.D0 u => 48 :: uint_digits u
  | Decimal.D1 u => 49 :: uint_digits u
  | Decimal.D2 u => 50 :: uint_digits u
  | Decimal.D3 u => 51 :: uint_digits u
  | Decimal.D4 u => 52 :: uint_digits u
  | Decimal.D5 u => 53 :: uint_digits u
  | Decimal.D6 u => 54 :: uint_digits u
  | Decimal.D7 u => 55 :: uint_digits u
  | Decimal.D8 u => 56 :: uint_digits u
  | Decimal.D9 u => 57 :: uint_digits u
  end.

(** [String(n)] for an integer-valued number: decimal digits, with a
    leading minus sign when negative. *)
Definition String_of_int (n : Z) : jsstring :=
  match Z.to_int n with
  | Decimal.Pos u => uint_digits u
  | Decimal.Neg u => 45 :: uint_digits u
  end.

(** An integer read as a JavaScript number (binary64, nearest-even). *)
Definition Number_of_int (n : Z) : float :=
  SF2Prim (binary_normalize 53 1024 n 0 false).

(** What the slip code takes from the JavaScript runtime and does not
    define itself: the general [Number::toString], which [toFixed] falls
    back on for non-finite values and for magnitudes of 10^21 and more, and
    the local calendar fields of a date string ([None] for an Invalid
    Date), which depend on the time zone of the process. *)
Record DateFields := mkDateFields {
  getDate : Z;
  getMonth : Z;
  getFullYear : Z;
  getHours : Z;
  getMinutes : Z
}.

Class Runtime := {
  Number_toString : float -> jsstring;
  Date_local : jsstring -> option DateFields
}.

(** [n] written with two fractional digits: the digits of [n], left-padded
    with zeros to three, with a point before the last two. *)
Definition fixed2_digits (n : Z) : jsstring :=
  let m := padStart (String_of_int n) 3 48 in
  let k := length m in
  take (k - 2)%nat m ++ 46 :: drop (k - 2)%nat m.

(** The integer [n] for which [n / 100 - m * 2^e] is closest to zero,
    the larger one on a tie. *)
Definition nearest_hundredth (m : positive) (e : Z) : Z :=
  if 0 <=? e then 100 * Z.pos m * 2 ^ e
  else (200 * Z.pos m + 2 ^ (- e)) / 2 ^ (- e + 1).

Definition at_least_1e21 (m : positive) (e : Z) : bool :=
  if 0 <=? e then 10 ^ 21 <=? Z.pos m * 2 ^ e
  else 10 ^ 21 * 2 ^ (- e) <=? Z.pos m.

(** [x.toFixed(2)] (ECMAScript Number.prototype.toFixed with 2 digits). *)
Definition toFixed2 `{Runtime} (x : float) : jsstring :=
  match Prim2SF x with
  | S754_nan | S754_infinity _ => Number_toString x
  | S754_zero _ => js "0.00"
  | S754_finite s m e =>
      if at_least_1e21 m e then Number_toString x
      else (if s then [45] else []) ++ fixed2_digits (nearest_hundredth m e)
  end.

Definition is_digit (c : Z) : Prop := 48 ≤ c ≤ 57.

(** A number written with exactly two decimal places: an optional minus
    sign, at least one digit, a point, two digits. *)
Definition two_decimals (s : jsstring) : Prop :=
  ∃ sign int d1 d2,
    s = sign ++ int ++ [46; d1; d2]
    ∧ (sign = [] ∨ sign = [45])
    ∧ int ≠ []
    ∧ Forall is_digit (int ++ [d1; d2]).

(** The numbers [toFixed] writes in fixed notation: the finite ones of
    magnitude below 10^21. *)
Definition fixed_range (x : float) : Prop :=
  match Prim2SF x with
  | S754_zero _ => True
  | S754_finite _ m e => at_least_1e21 m e = false
  | _ => False
  end.

(* ================================================================== *)
(** * ESC/POS command constants *)

Definition ESC : Z := 0x1B.
Definition GS : Z := 0x1D.
Definition LF : Z := 0x0A.

Module CMD.
Definition INIT : list Z := [ESC; 0x40].
Definition ALIGN_LEFT : list Z := [ESC; 0x61; 0x00].
Definition ALIGN_CENTER : list Z := [ESC; 0x61; 0x01].
Definition ALIGN_RIGHT : list Z := [ESC; 0x61; 0x02].
Definition BOLD_ON : list Z := [ESC; 0x45; 0x01].
Definition BOLD_OFF : list Z := [ESC; 0x45; 0x00].
Definition DOUBLE_HEIGHT : list Z := [GS; 0x21; 0x01].
Definition DOUBLE_SIZE : list Z := [GS; 0x21; 0x11].
Definition NORMAL_SIZE : list Z := [GS; 0x21; 0x00].
Definition CUT_FULL : list Z := [GS; 0x56; 0x00].
Definition CUT_PARTIAL : list Z := [GS; 0x56; 0x41; 0x00].
Definition CASH_DRAWER : list Z := [ESC; 0x70; 0x00; 0x19; 0xFA].
Definition LINE_FEED : list Z := [LF].
End CMD.

(* ================================================================== *)
(** * The ESC/POS builder

    The builder object holds one mutable array [bytes]; every method
    pushes onto it and returns the builder, so a method is a function from
    builder to builder and a chain of calls is a pipeline. *)

Record EscPos := mkEscPos { bytes : list Z }.

Notation "d |> f" := (f d) (at level 49, left associativity, only parsing).

Module Doc.
Definition new : EscPos := mkEscPos [].

Definition _add (arr : list Z) (d : EscPos) : EscPos :=
  mkEscPos (bytes d ++ arr).

Definition _text (str : jsstring) (d : EscPos) : EscPos :=
  mkEscPos (bytes d ++ ((fun c => Z.land c 0xFF) <$> str)).

Definition init := _add CMD.INIT.
Definition alignLeft := _add CMD.ALIGN_LEFT.
Definition alignCenter := _add CMD.ALIGN_CENTER.
Definition alignRight := _add CMD.ALIGN_RIGHT.
Definition boldOn := _add CMD.BOLD_ON.
Definition boldOff := _add CMD.BOLD_OFF.
Definition normalSize := _add CMD.NORMAL_SIZE.
Definition doubleHeight := _add CMD.DOUBLE_HEIGHT.
Definition doubleSize := _add CMD.DOUBLE_SIZE.

Fixpoint feed (n : nat) (d : EscPos) : EscPos :=
  match n with
  | O => d
  | S n' => feed n' (_add CMD.LINE_FEED d)
  end.

Definition cutFull := _add CMD.CUT_FULL.
Definition cutPartial := _add CMD.CUT_PARTIAL.
Definition cashDrawer := _add CMD.CASH_DRAWER.

Definition println (str : jsstring) (d : EscPos) : EscPos :=
  d |> _text str |> _add CMD.LINE_FEED.

Definition drawLine (char : jsstring) (width : nat) (d : EscPos) : EscPos :=
  println (str_repeat char width) d.

(** The line [leftRight] prints: left text, right text, and between
    them the spaces that fill [width], one at least. *)
Definition leftRightText (left right : jsstring) (width : Z) : jsstring :=
  let spaces := Z.max 1 (width - Z.of_nat (length left) - Z.of_nat (length right)) in
  left ++ str_repeat [SPACE] (Z.to_nat spaces) ++ right.

Definition leftRight (left right : jsstring) (width : Z) (d : EscPos) : EscPos :=
  println (leftRightText left right width) d.

(** [Buffer.from(array)] stores every element modulo 256. *)
Definition toBuffer (d : EscPos) : list Z :=
  (fun b => Z.land b 0xFF) <$> bytes d.
End Doc.

(** The bytes of one printed line. *)
Definition lineBytes (text : jsstring) : list Z :=
  ((λ c, Z.land c 0xFF) <$> text) ++ CMD.LINE_FEED.

(* ================================================================== *)
(** * Helpers of printer.js *)

Definition pad2 (n : Z) : jsstring := padStart (String_of_int n) 2 48.

Definition formatDateTime `{Runtime} (dateString : jsstring) : jsstring :=
  match Date_local dateString with
  | Some date =>
      let day := pad2 (getDate date) in
      let month := pad2 (getMonth date + 1) in
      let year := String_of_int (getFullYear date) in
      let hours := getHours date in
      let mins := pad2 (getMinutes date) in
      let ampm := if 12 <=? hours then js "PM" else js "AM" in
      let h12 := pad2 (if Z.rem hours 12 =? 0 then 12 else Z.rem hours 12) in
      day ++ js "-" ++ month ++ js "-" ++ year ++ js " " ++ h12 ++ js ":" ++ mins
          ++ js " " ++ ampm
  | None =>
      (* every field of an Invalid Date is NaN; [NaN % 12 || 12] is 12 *)
      js "NaN-NaN-NaN 12:NaN AM"
  end.

Inductive Align := AlignLeft | AlignRight | AlignCenter.

Definition col (text : jsstring) (width : nat) (align : Align) : jsstring :=
  let str := substring_to text width in
  match align with
  | AlignRight => padStart str width SPACE
  | AlignCenter =>
      let pad := ((width - length str) / 2)%nat in
      replicate pad SPACE ++ str ++ replicate (width - pad - length str)%nat SPACE
  | AlignLeft => padEnd str width SPACE
  end.

(* ================================================================== *)
(** * Data model: rows of the order store

    The fields the code reads, with the types of the store's columns:
    integers for [order_number], [table_number], [quantity] and the kitchen
    number, a number for [item_price], text for the others. A field that may
    be [null] or missing is an [option]; [kitchen_number] keeps [null] and
    [undefined] apart, since the code tests for both. *)

(** The [kitchen_number] field of an order item as JavaScript sees it. *)
Inductive KitchenField :=
  | KNum (n : Z)
  | KNull
  | KUndefined.

(** A kitchen key: [Some n] for kitchen [n], [None] for JavaScript
    [null], the unassigned kitchen. *)
Abbreviation kitchen := (option Z).

Record OrderItem := mkItem {
  item_name : option jsstring;
  quantity : Z;
  item_price : float;
  kitchen_number : KitchenField
}.

Record Order := mkOrder {
  id : jsstring;
  order_number : Z;
  created_at : jsstring;
  order_type : jsstring;
  table_number : option Z;
  payment_method : jsstring;
  payment_status : option jsstring;
  customer_name : option jsstring;
  customer_phone : option jsstring
}.

#[global] Instance KitchenField_eq_dec : EqDecision KitchenField.
Proof. solve_decision. Defined.

(* ================================================================== *)
(** * JavaScript [Set] and [Array.prototype.sort]

    A [Set] iterates in insertion order and holds no duplicates: it is
    modelled by the list of its elements in insertion order. *)

Module JSSet.
Section ops.
Context {A : Type} `{EqDecision A}.

Definition has (x : A) (s : list A) : bool := bool_decide (x ∈ s).

Definition add (x : A) (s : list A) : list A :=
  if has x s then s else s ++ [x].

Definition delete (x : A) (s : list A) : list A :=
  filter (λ y, y ≠ x) s.

Definition size (s : list A) : nat := length s.

(** [s.values().next().value]: the oldest element still in the set. *)
Definition first (s : list A) : option A := head s.

(** [new Set(iterable)] *)
Definition from (l : list A) : list A := foldl (λ s x, add x s) [] l.
End ops.
End JSSet.

(** [array.sort(compare)]: the sort is stable; an element [x] goes after
    every element [y] with [compare(y, x) <= 0]. *)
Section Array_sort.
Context {A : Type} (compare : A → A → Z).

Fixpoint sort_insert (x : A) (sorted : list A) : list A :=
  match sorted with
  | [] => [x]
  | y :: rest =>
      if 0 <? compare y x then x :: y :: rest else y :: sort_insert x rest
  end.

Definition Array_sort (l : list A) : list A :=
  foldl (λ sorted x, sort_insert x sorted) [] l.

(** [a] may stand before [b]. *)
Definition before (a b : A) : Prop := compare a b ≤ 0.
End Array_sort.

(* ================================================================== *)
(** * Kitchen partitioning (printer.js) *)

(** [i.kitchen_number ?? null] *)
Definition kitchen_or_null (f : KitchenField) : kitchen :=
  match f with
  | KNum n => Some n
  | KNull | KUndefined => None
  end.

(** The comparator handed to [sort] in [getUniqueKitchens]. *)
Definition compareKitchens (a b : kitchen) : Z :=
  match a, b with
  | None, None => 0
  | None, _ => 1
  | _, None => -1
  | Some a, Some b => a - b
  end.

Definition getUniqueKitchens (items : list OrderItem) : list kitchen :=
  let kitchens := JSSet.from ((λ i, kitchen_or_null (kitchen_number i)) <$> items) in
  Array_sort compareKitchens kitchens.

(** The predicate of the filter at the head of [printKitchenSlip]. *)
Definition inKitchen (kitchenNumber : kitchen) (i : OrderItem) : bool :=
  match kitchenNumber with
  | None =>
      bool_decide (kitchen_number i = KNull)
      || bool_decide (kitchen_number i = KUndefined)
  | Some n => bool_decide (kitchen_number i = KNum n)
  end.

Definition kitchenItemsOf (kitchenNumber : kitchen) (items : list OrderItem)
  : list OrderItem :=
  List.filter (inKitchen kitchenNumber) items.

(** The order slips are printed in: kitchens by ascending number, the
    unassigned kitchen after all of them. *)
Inductive kitchen_lt : kitchen → kitchen → Prop :=
  | kitchen_lt_num a b : a < b → kitchen_lt (Some a) (Some b)
  | kitchen_lt_unassigned a : kitchen_lt (Some a) None.

(** The kitchen key of an item. *)
Definition kitchenOf (i : OrderItem) : kitchen := kitchen_or_null (kitchen_number i).

(* ================================================================== *)
(** * Process environment and printer names *)

(** [process.env]: an object used as a map from names to strings. *)
Abbreviation Env := (gmap jsstring jsstring).

(** [s.replace(/^"|"$/g, '')]: drops one leading and one trailing
    double quote. *)
Definition strip_quotes (s : jsstring) : jsstring :=
  let s1 := match s with 34 :: r => r | _ => s end in
  if bool_decide (last s1 = Some 34) then take (length s1 - 1)%nat s1 else s1.

Definition getDefaultPrinterName (env : Env) : jsstring :=
  strip_quotes
    (or_str (env !! js "DEFAULT_PRINTER")
       (or_str (env !! js "PRINTER_NAME") (js "80mm Series Printer"))).

Definition getKitchenPrinterName (env : Env) (kitchenNumber : kitchen) : jsstring :=
  match kitchenNumber with
  | Some n =>
      let specific := env !! (js "KITCHEN_" ++ String_of_int n ++ js "_PRINTER") in
      if truthy_str specific then strip_quotes (or_str specific [])
      else getDefaultPrinterName env
  | None => getDefaultPrinterName env
  end.

(* ================================================================== *)
(** * The world the server acts on

    The mutable state of the process and its observable effects: the
    module-level [printedOrders] set of index.js, the jobs handed to the
    Windows spooler (each with the spooler's answer) and the lines written
    to the console. *)

Record PrintJob := mkJob { job_data : list Z; job_printer : jsstring }.

(** Console lines, by the message they carry. *)
Inductive LogLine :=
  | LogNoItems (k : kitchen)
  | LogJobQueued (printer : jsstring)
  | LogPrintError (k : kitchen)
  | LogKitchens (ks : list kitchen)
  | LogPrinting (total : nat)
  | LogSlip (kitchenIndex totalKitchens : nat) (k : kitchen)
  | LogSlipSent (k : kitchen)
  | LogSlipFailed (k : kitchen)
  | LogAlreadyPrinted (orderNumber : Z)
  | LogPaymentConfirmed (orderNumber : Z)
  | LogFetchFailed
  | LogAutoPrintDisabled
  | LogPrintingOrder (orderNumber : Z) (slips : nat)
  | LogAllSent (orderNumber : Z) (slips : nat)
  | LogSomeFailed (orderNumber : Z).

Record World := mkWorld {
  printedOrders : list jsstring;
  spooler : list (PrintJob * bool);
  console : list LogLine
}.

(** The external device sink: whether the spooler accepts a job, which
    may depend on everything submitted before. *)
Class DeviceSink := {
  printDirect : list (PrintJob * bool) → PrintJob → bool
}.

(** Code with effects on the world. *)
Definition IO (A : Type) : Type := World → A * World.

Definition io_ret {A} (a : A) : IO A := λ w, (a, w).

Definition io_bind {A B} (m : IO A) (k : A → IO B) : IO B :=
  λ w, let '(a, w') := m w in k a w'.

Notation "'let!' x ':=' m 'in' k" := (io_bind m (λ x, k))
  (at level 10, x name, m at level 100, k at level 200).
Notation "m '>>' k" := (io_bind m (λ _, k))
  (at level 90, right associativity).

Definition console_log (l : LogLine) : IO unit :=
  λ w, (tt, mkWorld (printedOrders w) (spooler w) (console w ++ [l])).

(** [sendToPrinter]: submits the job; the promise resolves to [true] when
    the spooler accepts it and is rejected otherwise. The result [false]
    stands for the rejection, which the caller's [catch] receives. *)
Definition sendToPrinter `{DeviceSink} (env : Env) (buffer : list Z)
    (printerName : jsstring) : IO bool :=
  let name := match printerName with [] => getDefaultPrinterName env | _ => printerName end in
  λ w,
    let job := mkJob buffer name in
    let ok := printDirect (spooler w) job in
    let w' := mkWorld (printedOrders w) (spooler w ++ [(job, ok)]) (console w) in
    if ok then (console_log (LogJobQueued name) >> io_ret true) w'
    else (false, w').

(** The byte buffers handed to the spooler between two worlds. *)
Definition sentBetween (before after : World) : list (list Z) :=
  (λ a, job_data a.1) <$> drop (length (spooler before)) (spooler after).

(* ================================================================== *)
(** * Building one kitchen slip (printKitchenSlip) *)

Section Slip.
Context `{Runtime}.

Import Doc.

(** Header: date and receipt number. *)
Definition slipHeader (order : Order) (doc : EscPos) : EscPos :=
  doc |> alignLeft |> normalSize
      |> leftRight (formatDateTime (created_at order))
           (js "Receipt #" ++ String_of_int (order_number order)) 48
      |> println (js "Store: 1")
      |> feed 1.

Definition brandBlock (doc : EscPos) : EscPos :=
  doc |> alignCenter
      |> boldOn |> println (js "ASTHA HJB Canteen") |> boldOff
      |> println (js "HJB Hall, IIT Kharagpur")
      |> println (js "West Bengal")
      |> println (js "+91-9333190224")
      |> feed 1.

Definition kitchenBanner (kitchenNumber : kitchen)
    (kitchenIndex totalKitchens : nat) (doc : EscPos) : EscPos :=
  let doc := doc |> alignLeft |> drawLine BOX_DASH 48 |> alignCenter |> boldOn in
  let doc :=
    match kitchenNumber with
    | Some n => doc |> println (js "KITCHEN " ++ String_of_int n)
    | None => doc |> println (js "KITCHEN (UNASSIGNED)")
    end in
  let doc :=
    if (1 <? totalKitchens)%nat
    then doc |> println (js "Slip " ++ String_of_int (Z.of_nat kitchenIndex)
                          ++ js " of " ++ String_of_int (Z.of_nat totalKitchens))
    else doc in
  doc |> boldOff |> alignLeft |> drawLine BOX_DASH 48 |> feed 1.

(** Table number, for orders that are not deliveries. *)
Definition tableBanner (order : Order) (doc : EscPos) : EscPos :=
  if negb (jsstring_eqb (order_type order) (js "delivery"))
     && truthy_num (table_number order)
  then doc |> alignCenter |> boldOn
           |> println (js "TABLE " ++ String_of_int (default 0 (table_number order)))
           |> boldOff |> feed 1
  else doc.

Definition customerBlock (order : Order) (doc : EscPos) : EscPos :=
  let doc := doc |> alignLeft in
  let doc :=
    if truthy_str (customer_name order)
    then doc |> leftRight (js "Customer:") (or_str (customer_name order) []) 48
    else doc in
  let doc :=
    if truthy_str (customer_phone order)
    then doc |> leftRight (js "Phone:") (or_str (customer_phone order) []) 48
    else doc in
  if truthy_str (customer_name order) || truthy_str (customer_phone order)
  then doc |> feed 1
  else doc.

(** Items table header (48 chars: 21 + 7 + 10 + 10). *)
Definition itemsHeader (doc : EscPos) : EscPos :=
  doc |> alignLeft |> boldOn
      |> println (col (js "Item Name") 21 AlignLeft
                  ++ col (js "Qty") 7 AlignRight
                  ++ col (js "Price") 10 AlignRight
                  ++ col (js "Total") 10 AlignRight)
      |> boldOff
      |> drawLine BOX_DASH 48.

(** One turn of the [forEach] over the items of this kitchen; the
    accumulator is the document and [kitchenSubtotal]. *)
Definition printLineItem (acc : EscPos * float) (item : OrderItem)
  : EscPos * float :=
  let '(doc, kitchenSubtotal) := acc in
  let extPrice := (item_price item * Number_of_int (quantity item))%float in
  let kitchenSubtotal := (kitchenSubtotal + extPrice)%float in
  let doc :=
    doc |> boldOn
        |> println (col (or_str (item_name item) (js "Item")) 21 AlignLeft
                    ++ col (String_of_int (quantity item)) 7 AlignRight
                    ++ col (toFixed2 (item_price item)) 10 AlignRight
                    ++ col (toFixed2 extPrice) 10 AlignRight)
        |> boldOff in
  let doc :=
    if (21 <? length (or_str (item_name item) []))%nat
    then doc |> boldOn
             |> println (js "  " ++ substring_from (or_str (item_name item) []) 21)
             |> boldOff
    else doc in
  (doc, kitchenSubtotal).

Definition lineItems (kitchenItems : list OrderItem) (doc : EscPos)
  : EscPos * float :=
  let '(doc, kitchenSubtotal) := foldl printLineItem (doc, 0%float) kitchenItems in
  (doc |> feed 1, kitchenSubtotal).

(** Kitchen subtotal, only on a multi-kitchen order. *)
Definition kitchenSubtotalBlock (kitchenNumber : kitchen) (totalKitchens : nat)
    (kitchenSubtotal : float) (doc : EscPos) : EscPos :=
  if (1 <? totalKitchens)%nat
  then doc |> alignLeft |> drawLine (js "-") 48
           |> leftRight
                (js "Kitchen "
                 ++ match kitchenNumber with
                    | Some n => String_of_int n
                    | None => js "Unassigned"
                    end
                 ++ js " subtotal:")
                (toFixed2 kitchenSubtotal) 48
           |> feed 1
  else doc.

(** The three amounts of the full-order totals. *)
Definition allSubtotal (items : list OrderItem) : float :=
  foldl (λ sum i, (sum + item_price i * Number_of_int (quantity i))%float)
    0%float items.

Definition serviceCharge (items : list OrderItem) : float :=
  (allSubtotal items * 0.02)%float.

Definition grandTotal (items : list OrderItem) : float :=
  (allSubtotal items + serviceCharge items)%float.

(** Full order totals (printed on every slip). *)
Definition orderTotals (order : Order) (items : list OrderItem) (doc : EscPos)
  : EscPos :=
  let payLabel :=
    if jsstring_eqb (payment_method order) (js "cash") then js "Cash" else js "Online" in
  doc |> alignLeft |> drawLine BOX_DASH 48
      |> leftRight (js "Order Subtotal:") (toFixed2 (allSubtotal items)) 48
      |> leftRight (js "Service Charges (2%):") (toFixed2 (serviceCharge items)) 48
      |> boldOn
      |> leftRight (payLabel ++ js " (Total):") (toFixed2 (grandTotal items)) 48
      |> boldOff
      |> feed 1
      |> alignLeft |> drawLine BOX_DASH 48.

Definition slipFooter (order : Order) (doc : EscPos) : EscPos :=
  let doc :=
    doc |> alignCenter |> feed 1
        |> println (js "Thanks for dining with us!")
        |> feed 1 in
  let doc :=
    if jsstring_eqb (order_type order) (js "delivery")
    then doc |> boldOn |> println (js "DELIVERY ORDER") |> boldOff
    else doc in
  doc |> feed 3.

(** Cut, then the cash drawer when asked for. *)
Definition cutAndDrawer (openDrawer : bool) (doc : EscPos) : EscPos :=
  let doc := doc |> cutPartial in
  if openDrawer then doc |> cashDrawer else doc.

(** The document of one slip from [new EscPos()] up to the feed before
    the cut. *)
Definition slipContent (order : Order) (items : list OrderItem)
    (kitchenNumber : kitchen) (kitchenItems : list OrderItem)
    (kitchenIndex totalKitchens : nat) : EscPos :=
  let doc := Doc.new |> init in
  let doc := doc |> slipHeader order |> brandBlock
                 |> kitchenBanner kitchenNumber kitchenIndex totalKitchens
                 |> tableBanner order
                 |> customerBlock order
                 |> itemsHeader in
  let '(doc, kitchenSubtotal) := lineItems kitchenItems doc in
  doc |> kitchenSubtotalBlock kitchenNumber totalKitchens kitchenSubtotal
      |> orderTotals order items
      |> slipFooter order.

(** The whole document of one slip. *)
Definition buildSlip (order : Order) (items : list OrderItem)
    (kitchenNumber : kitchen) (kitchenItems : list OrderItem)
    (kitchenIndex totalKitchens : nat) (openDrawer : bool) : EscPos :=
  slipContent order items kitchenNumber kitchenItems kitchenIndex totalKitchens
    |> cutAndDrawer openDrawer.

(** The bytes of the full-order totals block. *)
Definition totalsBlock (order : Order) (items : list OrderItem) : list Z :=
  bytes (orderTotals order items Doc.new).

(** What one call of [printKitchenSlip] encodes and sends: nothing for
    a kitchen without items, the buffer of the slip otherwise. *)
Definition slipBytes (order : Order) (items : list OrderItem) (k : kitchen)
    (idx total : nat) (drawer : bool) : list (list Z) :=
  match kitchenItemsOf k items with
  | [] => []
  | kitchenItems =>
      [Doc.toBuffer (buildSlip order items k kitchenItems idx total drawer)]
  end.

Context `{DeviceSink} (env : Env).

Definition printKitchenSlip (order : Order) (items : list OrderItem)
    (kitchenNumber : kitchen) (kitchenIndex totalKitchens : nat)
    (openDrawer : bool) : IO bool :=
  let kitchenItems := kitchenItemsOf kitchenNumber items in
  if (length kitchenItems =? 0)%nat
  then console_log (LogNoItems kitchenNumber) >> io_ret true
  else
    let doc := buildSlip order items kitchenNumber kitchenItems
                 kitchenIndex totalKitchens openDrawer in
    let! sent := sendToPrinter env (toBuffer doc)
                   (getKitchenPrinterName env kitchenNumber) in
    if sent then io_ret true
    else console_log (LogPrintError kitchenNumber) >> io_ret false.

(** Open cash drawer only on the first slip, and only if configured and
    cash payment. *)
Definition openDrawerAt (order : Order) (kitchenIndex : nat) : bool :=
  bool_decide (env !! js "OPEN_CASH_DRAWER" = Some (js "true"))
  && jsstring_eqb (payment_method order) (js "cash")
  && (kitchenIndex =? 1)%nat.

(** The [for] loop of [printOrder], from index [i] on. The pause of
    500 ms between two slips has no effect on the world and is left out. *)
Fixpoint printOrder_loop (order : Order) (items : list OrderItem)
    (totalKitchens : nat) (i : nat) (kitchens : list kitchen)
    (allSuccess : bool) : IO bool :=
  match kitchens with
  | [] => io_ret allSuccess
  | kitchenNumber :: rest =>
      let kitchenIndex := (i + 1)%nat in
      let openDrawer := openDrawerAt order kitchenIndex in
      console_log (LogSlip kitchenIndex totalKitchens kitchenNumber) >>
      let! success := printKitchenSlip order items kitchenNumber
                        kitchenIndex totalKitchens openDrawer in
      (if success then console_log (LogSlipSent kitchenNumber)
       else console_log (LogSlipFailed kitchenNumber)) >>
      printOrder_loop order items totalKitchens (i + 1) rest
        (if success then allSuccess else false)
  end.

(** [printOrder]: one slip per kitchen; returns [success] and [kitchens]. *)
Definition printOrder (order : Order) (items : list OrderItem)
  : IO (bool * list kitchen) :=
  let kitchens := getUniqueKitchens items in
  let totalKitchens := length kitchens in
  console_log (LogKitchens kitchens) >>
  console_log (LogPrinting totalKitchens) >>
  let! allSuccess := printOrder_loop order items totalKitchens 0 kitchens true in
  io_ret (allSuccess, kitchens).

(** The name [sendToPrinter] hands to the spooler for a kitchen. *)
Definition spoolerName (k : kitchen) : jsstring :=
  match getKitchenPrinterName env k with
  | [] => getDefaultPrinterName env
  | _ => getKitchenPrinterName env k
  end.

(** The job of slip number [kitchenIndex] of [totalKitchens]. *)
Definition slipJob (order : Order) (items : list OrderItem)
    (totalKitchens kitchenIndex : nat) (k : kitchen) : PrintJob :=
  mkJob
    (Doc.toBuffer
       (buildSlip order items k (kitchenItemsOf k items) kitchenIndex
          totalKitchens (openDrawerAt order kitchenIndex)))
    (spoolerName k).

(** The jobs of kitchens [ks], the first of them being slip [i + 1]. *)
Fixpoint slipJobsFrom (order : Order) (items : list OrderItem)
    (totalKitchens i : nat) (ks : list kitchen) : list PrintJob :=
  match ks with
  | [] => []
  | k :: rest =>
      slipJob order items totalKitchens (i + 1) k
      :: slipJobsFrom order items totalKitchens (i + 1) rest
  end.

(** What the spooler records when [jobs] are submitted one after the
    other, after the jobs [sp]. *)
Fixpoint submitted (sp : list (PrintJob * bool)) (jobs : list PrintJob)
  : list (PrintJob * bool) :=
  match jobs with
  | [] => []
  | job :: rest =>
      let ok := printDirect sp job in
      (job, ok) :: submitted (sp ++ [(job, ok)]) rest
  end.
End Slip.

(* ================================================================== *)
(** * Trigger handling (index.js) *)

Record Config := mkConfig {
  autoPrintEnabled : bool;
  printOnPaymentStatus : jsstring;
  playSound : bool
}.

Definition config (env : Env) : Config :=
  {| autoPrintEnabled := bool_decide (env !! js "AUTO_PRINT_ENABLED" = Some (js "true"));
     printOnPaymentStatus := or_str (env !! js "PRINT_ON_PAYMENT_STATUS") (js "paid");
     playSound := bool_decide (env !! js "PLAY_SOUND" = Some (js "true")) |}.

(** The external order store as [fetchOrderDetails] sees it: the order
    row with its items, or [None] when the order is missing or a query
    fails. *)
Class OrderStore := {
  fetchOrderDetails : jsstring → option (Order * list OrderItem)
}.

(** [record?.payment_status === config.printOnPaymentStatus] *)
Definition shouldPrint (env : Env) (record : option Order) : bool :=
  bool_decide (record ≫= payment_status = Some (printOnPaymentStatus (config env))).

Definition LEDGER_LIMIT : nat := 200.

Definition printedOrders_add (orderId : jsstring) : IO unit :=
  λ w, (tt, mkWorld (JSSet.add orderId (printedOrders w)) (spooler w) (console w)).

(** Trim set to last 200: when the set holds more than 200 entries, the
    first value of its iterator is deleted. *)
Definition trimLedger (ledger : list jsstring) : list jsstring :=
  if (LEDGER_LIMIT <? JSSet.size ledger)%nat
  then
    match JSSet.first ledger with
    | Some oldest => JSSet.delete oldest ledger
    | None => ledger
    end
  else ledger.

Definition printedOrders_trim : IO unit :=
  λ w, (tt, mkWorld (trimLedger (printedOrders w)) (spooler w) (console w)).

(** The ledger holds no duplicates and never more than 200 entries. *)
Definition ledger_ok (w : World) : Prop :=
  NoDup (printedOrders w) ∧ (length (printedOrders w) ≤ LEDGER_LIMIT)%nat.

Section Trigger.
Context `{Runtime} `{DeviceSink} `{OrderStore} (env : Env).

(** The core handler. The desktop notification has no effect on the
    world and is left out; nothing in the body throws, so the outer
    [catch] is never entered. *)
Definition handlePaidOrder (record : Order) : IO unit :=
  let orderId := id record in
  let orderNumber := order_number record in
  λ w,
    if JSSet.has orderId (printedOrders w)
    then console_log (LogAlreadyPrinted orderNumber) w
    else
      (console_log (LogPaymentConfirmed orderNumber) >>
       match fetchOrderDetails orderId with
       | None => console_log LogFetchFailed
       | Some (order, items) =>
           if negb (autoPrintEnabled (config env))
           then console_log LogAutoPrintDisabled
           else
             let kitchens := getUniqueKitchens items in
             console_log (LogPrintingOrder orderNumber (length kitchens)) >>
             let! result := printOrder env order items in
             (if result.1
              then printedOrders_add orderId >>
                   console_log (LogAllSent orderNumber (length result.2))
              else console_log (LogSomeFailed orderNumber)) >>
             printedOrders_trim
       end) w.

(** The INSERT callback of the realtime channel. *)
Definition onInsert (payload_new : option Order) : IO unit :=
  match payload_new with
  | Some record =>
      if shouldPrint env (Some record) then handlePaidOrder record else io_ret tt
  | None => io_ret tt
  end.

(** The decision of the UPDATE callback. *)
Definition updateQualifies (payload_old payload_new : option Order) : bool :=
  let wasAlreadyPaid :=
    bool_decide (payload_old ≫= payment_status
                 = Some (printOnPaymentStatus (config env))) in
  let isNowPaid := shouldPrint env payload_new in
  negb wasAlreadyPaid && isNowPaid.

(** The UPDATE callback of the realtime channel. *)
Definition onUpdate (payload_old payload_new : option Order) : IO unit :=
  match payload_new with
  | Some record =>
      if updateQualifies payload_old (Some record)
      then handlePaidOrder record else io_ret tt
  | None => io_ret tt
  end.

(** Handle calls one after the other. *)
Definition handleAll (records : list Order) (w : World) : World :=
  foldl (λ w record, (handlePaidOrder record w).2) w records.
End Trigger.

(** The world at process start. *)
Definition initialWorld : World := mkWorld [] [] [].

(* ================================================================== *)
(** * Polling (index.js) and the layout helpers of the first printer module *)

Section Polling.
Context `{Runtime} `{DeviceSink} `{OrderStore} (env : Env).

(** The loop of [poll] over the orders the query returned: an order that
    is in [printedOrders] is passed over, every other one is handled. *)
Fixpoint pollOrders (orders : list Order) : IO unit :=
  match orders with
  | [] => io_ret tt
  | order :: rest =>
      (λ w, if negb (JSSet.has (id order) (printedOrders w))
            then handlePaidOrder env order w
            else io_ret tt w) >>
      pollOrders rest
  end.
End Polling.

(** ** The printer test (printer.js) *)

Section PrinterTest.
Context `{Runtime} `{DeviceSink} (env : Env).

Import Doc.

(** The test page; [now] is [new Date().toISOString()], the time of the
    call. *)
Definition testPage (now name : jsstring) : EscPos :=
  Doc.new |> init
    |> alignLeft |> normalSize
    |> println (formatDateTime now)
    |> println (js "Store: 1")
    |> feed 1
    |> alignCenter
    |> boldOn |> println (js "*** PRINTER TEST ***") |> boldOff
    |> feed 1
    |> boldOn |> println (js "ASTHA HJB Canteen") |> boldOff
    |> println (js "HJB Hall, IIT Kharagpur")
    |> println (js "West Bengal")
    |> println (js "+91-9333190224")
    |> feed 1
    |> alignLeft |> drawLine BOX_DASH 48
    |> feed 1
    |> println (js "Printer Name : " ++ name)
    |> println (js "Connection   : SUCCESS")
    |> feed 1
    |> alignLeft |> drawLine BOX_DASH 48
    |> alignCenter
    |> boldOn |> println (js "CONNECTION SUCCESS!") |> boldOff
    |> println (js "80mm Thermal  |  ESC/POS  |  RAW mode")
    |> feed 3
    |> cutPartial.

(** [testPrinter(printerName)]; [None] is a call without a name. The
    result [false] stands for the [catch] branch, whose console lines are
    left out. *)
Definition testPrinter (now : jsstring) (printerName : option jsstring) : IO bool :=
  let name := or_str printerName (getDefaultPrinterName env) in
  sendToPrinter env (toBuffer (testPage now name)) name.
End PrinterTest.

(** [createTwoColumnLine] of the first printer module: left text, right
    text, and between them the spaces that fill [totalWidth], none when
    the texts are too long. *)
Definition createTwoColumnLine (left right : jsstring) (totalWidth : Z) : jsstring :=
  let spaces := totalWidth - Z.of_nat (length left) - Z.of_nat (length right) in
  left ++ str_repeat [SPACE] (Z.to_nat (Z.max 0 spaces)) ++ right.

(* ================================================================== *)
(** * The first version of the server (second half of index.js)

    The first version watches the [status] of an order, prints a
    configured number of copies and keeps its own [printedOrders] set. Its
    [printOrder] drives an external printer library and is taken as given:
    what matters to the handler is the boolean it returns. *)

(** The fields of [payload.new] the first handler reads. *)
Record StatusRecord := mkStatusRecord {
  sr_id : jsstring;
  sr_status : option jsstring;
  sr_order_number : Z
}.

(** The configuration of the first version; [printCopies] is the value
    of [parseInt(process.env.PRINT_COPIES) || 1]. *)
Record CopiesConfig := mkCopiesConfig {
  cc_autoPrintEnabled : bool;
  printOnStatus : jsstring;
  printCopies : Z
}.

(** One call of the first [printOrder]: the order, the copy number, the
    number of copies and the result. *)
Record CopyAttempt := mkCopyAttempt {
  ca_order : Order;
  ca_items : list OrderItem;
  ca_copy : Z;
  ca_total : Z;
  ca_success : bool
}.

Record CopiesWorld := mkCopiesWorld {
  cw_printedOrders : list jsstring;
  cw_attempts : list CopyAttempt
}.

(** The first [printOrder], by its result; the result may depend on the
    calls made before. *)
Class CopyPrinter := {
  printCopy : list CopyAttempt → Order → list OrderItem → Z → Z → bool
}.

Definition COPIES_LEDGER_LIMIT : nat := 100.

Section FirstVersion.
Context `{CopyPrinter} `{OrderStore} (cfg : CopiesConfig).

(** The [for] loop over the copies, from copy number [copy] on; [n] is
    the number of turns left. *)
Fixpoint printCopies_loop (order : Order) (items : list OrderItem) (copy : Z)
    (n : nat) (attempts : list CopyAttempt) : list CopyAttempt :=
  match n with
  | O => attempts
  | S n' =>
      let success := printCopy attempts order items copy (printCopies cfg) in
      printCopies_loop order items (copy + 1) n'
        (attempts ++ [mkCopyAttempt order items copy (printCopies cfg) success])
  end.

(** Clean up old printed orders (keep last 100): over 100 entries,
    [Array.from(printedOrders)[0]] is deleted. *)
Definition copiesTrim (ledger : list jsstring) : list jsstring :=
  if (COPIES_LEDGER_LIMIT <? JSSet.size ledger)%nat
  then
    match head ledger with
    | Some oldest => JSSet.delete oldest ledger
    | None => ledger
    end
  else ledger.

Definition handleNewOrder (payload_new : option StatusRecord) (w : CopiesWorld)
  : CopiesWorld :=
  let orderStatus := payload_new ≫= sr_status in
  if negb (bool_decide (orderStatus = Some (printOnStatus cfg))) then w
  else
    match payload_new with
    | None => w
    | Some record =>
        let orderId := sr_id record in
        if JSSet.has orderId (cw_printedOrders w) then w
        else
          match fetchOrderDetails orderId with
          | None => w
          | Some (order, items) =>
              if cc_autoPrintEnabled cfg
              then
                let attempts :=
                  printCopies_loop order items 1 (Z.to_nat (printCopies cfg))
                    (cw_attempts w) in
                mkCopiesWorld
                  (copiesTrim (JSSet.add orderId (cw_printedOrders w)))
                  attempts
              else w
          end
    end.

(** The decision of the first UPDATE callback. *)
Definition statusUpdateQualifies (payload_old payload_new : option StatusRecord)
  : bool :=
  let oldStatus := payload_old ≫= sr_status in
  let newStatus := payload_new ≫= sr_status in
  negb (bool_decide (oldStatus = newStatus))
  && bool_decide (newStatus = Some (printOnStatus cfg)).
End FirstVersion.

(* ================================================================== *)
(** * Notions used to state the properties *)

(** A value that fits in one byte. *)
Definition byte_ok (b : Z) : Prop := 0 ≤ b < 256.

#[local] Instance byte_ok_dec (b : Z) : Decision (byte_ok b).
Proof. unfold byte_ok. apply _. Defined.

(** The document [d'] is [d] with bytes appended. *)
Definition extends (d d' : EscPos) : Prop :=
  ∃ ext : list Z, bytes d' = bytes d ++ ext ∧ Forall byte_ok ext.

(** The text of the row [printLineItem] prints for an item: name,
    quantity, unit price and extended price in columns of 21, 7, 10 and 10
    characters. *)
Definition itemRow `{Runtime} (item : OrderItem) : jsstring :=
  col (or_str (item_name item) (js "Item")) 21 AlignLeft
  ++ col (String_of_int (quantity item)) 7 AlignRight
  ++ col (toFixed2 (item_price item)) 10 AlignRight
  ++ col (toFixed2 (item_price item * Number_of_int (quantity item))%float) 10 AlignRight.

(** The continuation line [printLineItem] prints for a name of more than
    21 characters. *)
Definition itemOverflow (item : OrderItem) : list Z :=
  if (21 <? length (or_str (item_name item) []))%nat
  then CMD.BOLD_ON
       ++ lineBytes (js "  " ++ substring_from (or_str (item_name item) []) 21)
       ++ CMD.BOLD_OFF
  else [].

(** The bytes [printLineItem] appends for an item. *)
Definition itemBytes `{Runtime} (item : OrderItem) : list Z :=
  CMD.BOLD_ON ++ lineBytes (itemRow item) ++ CMD.BOLD_OFF ++ itemOverflow item.

(** Date fields as a valid [Date] gives them, for a year of four digits. *)
Definition valid_date (date : DateFields) : Prop :=
  1 ≤ getDate date ≤ 31 ∧ 0 ≤ getMonth date ≤ 11
  ∧ 1000 ≤ getFullYear date ≤ 9999
  ∧ 0 ≤ getHours date ≤ 23 ∧ 0 ≤ getMinutes date ≤ 59.

(** Two worlds with the same ledger and the same spooler history. *)
Definition same_state (w1 w2 : World) : Prop :=
  printedOrders w1 = printedOrders w2 ∧ spooler w1 = spooler w2.

(* ================================================================== *)
(** * A sample deployment *)

Module Sample.
(** A runtime whose clock reads 2 November 2026, 14:05 local time. The
    amounts of the sample orders are all in the range [toFixed] writes
    itself. *)
Definition runtime : Runtime :=
  {| Number_toString := λ x,
       match Prim2SF x with
       | S754_infinity false => js "Infinity"
       | S754_infinity true => js "-Infinity"
       | _ => js "NaN"
       end;
     Date_local := λ _, Some (mkDateFields 2 10 2026 14 5) |}.

(** A spooler that accepts every job. *)
Definition acceptAll : DeviceSink := {| printDirect := λ _ _, true |}.


Definition env : Env :=
  <[js "AUTO_PRINT_ENABLED" := js "true"]>
    (<[js "OPEN_CASH_DRAWER" := js "true"]> ∅).

(** Order #101 of the sample order of printer.js, paid in cash. *)
Definition order (orderId : jsstring) : Order :=
  mkOrder orderId 101 (js "2026-11-02T08:35:00Z") (js "dine_in") (Some 5)
    (js "cash") (Some (js "paid")) None None.

Definition items : list OrderItem :=
  [mkItem (Some (js "Veg Biryani")) 2 120.00%float (KNum 1);
   mkItem (Some (js "Roti")) 3 15.00%float (KNum 2);
   mkItem (Some (js "Water")) 2 20.00%float KNull].

(** A store that holds the sample items for every order. *)
Definition store : OrderStore :=
  {| fetchOrderDetails := λ orderId, Some (order orderId, items) |}.

(** A store of orders of one item each. *)
Definition smallStore : OrderStore :=
  {| fetchOrderDetails := λ orderId,
       Some (order orderId, [mkItem (Some (js "Roti")) 3 15.00%float (KNum 2)]) |}.

(** The records of orders 0, 1, 2, ... *)
Definition record (n : nat) : Order := order (String_of_int (Z.of_nat n)).
End Sample.

(** The id [x] is in the ledger with at most [m] ids after it. *)
Definition remembered (x : jsstring) (m : nat) (w : World) : Prop :=
  ledger_ok w
  ∧ ∃ pre post, printedOrders w = pre ++ x :: post ∧ (length post ≤ m)%nat.

(** A deployment that prints nothing: auto-print is not enabled in the
    environment, and the store holds orders without items. *)
Module Quiet.
Definition env : Env := ∅.

Definition noItemsStore : OrderStore :=
  {| fetchOrderDetails := λ orderId, Some (Sample.order orderId, []) |}.
End Quiet.

(** A deployment of the first version: two copies per order, and a
    printer on which every copy fails. *)
Module FirstSample.
Definition cfg : CopiesConfig := mkCopiesConfig true (js "placed") 2.

Definition failing : CopyPrinter := {| printCopy := λ _ _ _ _ _, false |}.

Definition record : StatusRecord := mkStatusRecord (js "0") (Some (js "placed")) 101.
End FirstSample.

(** [needle] occurs in [hay] as a run of consecutive bytes. *)
Definition includes (needle hay : list Z) : Prop :=
  ∃ pre post, hay = pre ++ needle ++ post.

Fixpoint prefixb (needle hay : list Z) : bool :=
  match needle, hay with
  | [], _ => true
  | n :: needle', h :: hay' => (n =? h) && prefixb needle' hay'
  | _ :: _, [] => false
  end.

(** The search that decides [includes]. *)
Fixpoint includesb (needle hay : list Z) : bool :=
  prefixb needle hay
  || match hay with
     | [] => false
     | _ :: hay' => includesb needle hay'
     end.

(** An order of 10^21 for one item. [Number::toString] writes a value
    from 10^21 on in exponent notation with the fewest digits that identify
    it (ECMAScript, Number::toString): "1e+21" for the subtotal 10^21 and
    "1.02e+21" for the grand total; the runtime answers so for the two. *)
Module Large.
Definition runtime : Runtime :=
  {| Number_toString := λ x,
       if PrimFloat.eqb x 1e21%float then js "1e+21"
       else if PrimFloat.eqb x 1.02e21%float then js "1.02e+21"
       else @Number_toString Sample.runtime x;
     Date_local := @Date_local Sample.runtime |}.

Definition items : list OrderItem :=
  [mkItem (Some (js "Banquet")) 1 1e21%float (KNum 1)].
End Large.

(** An order paid online whose customer name is five characters with the
    codes 0x11B, 0x70, 0x100, 0x119 and 0xFA. *)
Module Injection.
Definition order : Order :=
  mkOrder (js "a1") 101 (js "2026-11-02T08:35:00Z") (js "dine_in") (Some 5)
    (js "online") (Some (js "paid")) (Some [0x11B; 0x70; 0x100; 0x119; 0xFA]) None.
End Injection.

(* ================================================================== *)
(** * Properties of the set and sort models *)

(** ** Searching a buffer *)

Lemma prefixb_sound (needle hay : list Z) :
  prefixb needle hay = true → ∃ post, hay = needle ++ post.
Proof.
  revert hay. induction needle as [|n needle IH]; intros hay Hp.
  - by exists hay.
  - destruct hay as [|h hay]; [done|]. simpl in Hp.
    apply andb_true_iff in Hp as [Hn Hp]. apply Z.eqb_eq in Hn as ->.
    destruct (IH _ Hp) as [post ->]. by exists post.
Qed.

Lemma includesb_sound (needle hay : list Z) :
  includesb needle hay = true → includes needle hay.
Proof.
  induction hay as [|h hay IH]; intros Hi.
  - destruct needle; [|done]. by exists [], [].
  - cbn [includesb] in Hi. apply orb_true_iff in Hi as [Hp|Hi].
    + destruct (prefixb_sound _ _ Hp) as [post Hpost]. by exists [], post.
    + destruct (IH Hi) as (pre & post & ->). by exists (h :: pre), post.
Qed.

Lemma includes_app_l (needle hay rest : list Z) :
  includes needle hay → includes needle (hay ++ rest).
Proof.
  intros (pre & post & ->). exists pre, (post ++ rest). by rewrite <- !app_assoc.
Qed.

Module JSSetFacts.
Section facts.
Context {A : Type} `{EqDecision A}.
Implicit Types (x y : A) (s l : list A).

Lemma elem_of_add x y s : y ∈ JSSet.add x s ↔ y = x ∨ y ∈ s.
Proof.
  unfold JSSet.add, JSSet.has. case_bool_decide as Hx.
  - split; [by right|]. intros [->|?]; done.
  - rewrite elem_of_app, list_elem_of_singleton. tauto.
Qed.

Lemma NoDup_add x s : NoDup s → NoDup (JSSet.add x s).
Proof.
  intros Hs. unfold JSSet.add, JSSet.has. case_bool_decide as Hx; [done|].
  apply NoDup_app. split_and!; [done| |apply NoDup_singleton].
  intros y Hy ->%list_elem_of_singleton. done.
Qed.

Lemma add_fresh x s : x ∉ s → JSSet.add x s = s ++ [x].
Proof. intros Hx. unfold JSSet.add, JSSet.has. by rewrite bool_decide_eq_false_2. Qed.

Lemma foldl_add_spec l s :
  (∀ y, y ∈ foldl (λ s x, JSSet.add x s) s l ↔ y ∈ s ∨ y ∈ l)
  ∧ (NoDup s → NoDup (foldl (λ s x, JSSet.add x s) s l)).
Proof.
  revert s. induction l as [|x l IH]; intros s; simpl.
  - split; [|done]. intros y. rewrite elem_of_nil. tauto.
  - destruct (IH (JSSet.add x s)) as [IHin IHnd]. split.
    + intros y. rewrite IHin, elem_of_add, elem_of_cons. tauto.
    + intros Hs. by apply IHnd, NoDup_add.
Qed.

Lemma elem_of_from y l : y ∈ JSSet.from l ↔ y ∈ l.
Proof.
  unfold JSSet.from. destruct (foldl_add_spec l []) as [Hin _].
  rewrite Hin, elem_of_nil. tauto.
Qed.

Lemma NoDup_from l : NoDup (JSSet.from l).
Proof. apply foldl_add_spec, NoDup_nil_2. Qed.

Lemma delete_head x s : NoDup (x :: s) → JSSet.delete x (x :: s) = s.
Proof.
  intros [Hx _]%NoDup_cons. unfold JSSet.delete.
  rewrite filter_cons_False by (intros ?; done).
  induction s as [|y s IH]; [done|].
  apply not_elem_of_cons in Hx as [Hxy Hxs].
  rewrite filter_cons_True by done. f_equal. by apply IH.
Qed.
End facts.
End JSSetFacts.

Section Array_sort_facts.
Context {A : Type} (compare : A → A → Z).

Hypothesis compare_flip : ∀ a b, 0 < compare a b → compare b a ≤ 0.
Hypothesis before_trans :
  ∀ a b c, before compare a b → before compare b c → before compare a c.

Lemma sort_insert_perm x l : sort_insert compare x l ≡ₚ x :: l.
Proof.
  induction l as [|y l IH]; simpl; [done|].
  destruct (0 <? compare y x); [done|].
  rewrite IH. apply Permutation_swap.
Qed.

Lemma Array_sort_perm l : Array_sort compare l ≡ₚ l.
Proof.
  unfold Array_sort.
  assert (Hgen : ∀ acc, foldl (λ sorted x, sort_insert compare x sorted) acc l
                       ≡ₚ acc ++ l).
  { induction l as [|x l IH]; intros acc; simpl.
    - by rewrite app_nil_r.
    - rewrite IH, sort_insert_perm. apply Permutation_middle. }
  apply (Hgen []).
Qed.

Lemma sort_insert_sorted x l :
  StronglySorted (before compare) l →
  StronglySorted (before compare) (sort_insert compare x l).
Proof.
  induction 1 as [|y l Hl IH Hy]; simpl.
  - repeat constructor.
  - destruct (0 <? compare y x) eqn:Hc.
    + apply Z.ltb_lt, compare_flip in Hc.
      constructor; [by constructor|].
      constructor; [done|].
      eapply Forall_impl; [exact Hy|]. intros z Hz. by eapply before_trans.
    + apply Z.ltb_ge in Hc. constructor; [done|].
      rewrite sort_insert_perm. by constructor.
Qed.

Lemma Array_sort_sorted l : StronglySorted (before compare) (Array_sort compare l).
Proof.
  unfold Array_sort.
  assert (Hgen : ∀ acc, StronglySorted (before compare) acc →
            StronglySorted (before compare)
              (foldl (λ sorted x, sort_insert compare x sorted) acc l)).
  { induction l as [|x l IH]; intros acc Hacc; simpl; [done|].
    by apply IH, sort_insert_sorted. }
  apply Hgen. constructor.
Qed.
End Array_sort_facts.

(* ================================================================== *)
(** * Kitchen partitioning *)

Lemma compareKitchens_flip a b :
  0 < compareKitchens a b → compareKitchens b a ≤ 0.
Proof. destruct a, b; simpl; lia. Qed.

Lemma compareKitchens_trans a b c :
  before compareKitchens a b → before compareKitchens b c →
  before compareKitchens a c.
Proof. unfold before. destruct a, b, c; simpl; lia. Qed.

Lemma before_kitchen_lt a b :
  before compareKitchens a b → a ≠ b → kitchen_lt a b.
Proof.
  unfold before. destruct a as [a|], b as [b|]; simpl; intros Hc Hne.
  - constructor. assert (a ≠ b) by congruence. lia.
  - constructor.
  - lia.
  - done.
Qed.

Lemma kitchen_lt_irrefl a : ¬ kitchen_lt a a.
Proof. intros Hlt. inversion Hlt; lia. Qed.

Lemma kitchen_lt_trans a b c : kitchen_lt a b → kitchen_lt b c → kitchen_lt a c.
Proof.
  intros Hab Hbc. destruct Hab; inversion Hbc; subst; constructor; lia.
Qed.

#[local] Instance kitchen_lt_transitive : Transitive kitchen_lt.
Proof. intros a b c. apply kitchen_lt_trans. Qed.

(** A sorted list without duplicates is strictly ascending. *)
Lemma sorted_NoDup_strict (l : list kitchen) :
  StronglySorted (before compareKitchens) l → NoDup l →
  StronglySorted kitchen_lt l.
Proof.
  induction 1 as [|x l Hl IH Hx]; intros Hnd; [constructor|].
  apply NoDup_cons in Hnd as [Hxl Hnd].
  constructor; [by apply IH|].
  apply Forall_forall. intros y Hy.
  apply before_kitchen_lt.
  - by eapply Forall_forall in Hx.
  - intros ->. done.
Qed.

(** Strictly ascending lists with the same elements are equal. *)
Lemma strict_sorted_unique (l1 l2 : list kitchen) :
  StronglySorted kitchen_lt l1 → StronglySorted kitchen_lt l2 →
  (∀ k, k ∈ l1 ↔ k ∈ l2) → l1 = l2.
Proof.
  intros H1. revert l2. induction H1 as [|x l1 Hl1 IH Hx]; intros l2 H2 Hiff.
  - destruct l2 as [|y l2]; [done|]. exfalso.
    eapply (not_elem_of_nil y), Hiff. left.
  - destruct H2 as [|y l2 Hl2 Hy].
    { exfalso. eapply (not_elem_of_nil x), Hiff. left. }
    rewrite Forall_forall in Hx, Hy.
    assert (x = y) as ->.
    { assert (Hxin : x ∈ y :: l2) by (apply Hiff; left).
      assert (Hyin : y ∈ x :: l1) by (apply Hiff; left).
      apply elem_of_cons in Hxin as [?|Hxin]; [done|].
      apply elem_of_cons in Hyin as [?|Hyin]; [done|].
      exfalso. apply (kitchen_lt_irrefl x).
      eapply kitchen_lt_trans; [by apply Hx|by apply Hy]. }
    f_equal. apply IH; [done|]. intros k. split; intros Hk.
    + assert (Hin : k ∈ y :: l2) by (apply Hiff; by right).
      apply elem_of_cons in Hin as [->|?]; [|done].
      exfalso. apply (kitchen_lt_irrefl y). by apply Hx.
    + assert (Hin : k ∈ y :: l1) by (apply Hiff; by right).
      apply elem_of_cons in Hin as [->|?]; [|done].
      exfalso. apply (kitchen_lt_irrefl y). by apply Hy.
Qed.

Lemma elem_of_getUniqueKitchens (items : list OrderItem) (k : kitchen) :
  k ∈ getUniqueKitchens items ↔ ∃ i, i ∈ items ∧ kitchenOf i = k.
Proof.
  unfold getUniqueKitchens. rewrite Array_sort_perm.
  rewrite JSSetFacts.elem_of_from, list_elem_of_fmap.
  split; intros (i & ? & ?); exists i; done.
Qed.

Lemma NoDup_getUniqueKitchens (items : list OrderItem) :
  NoDup (getUniqueKitchens items).
Proof.
  unfold getUniqueKitchens. rewrite Array_sort_perm. apply JSSetFacts.NoDup_from.
Qed.

Lemma getUniqueKitchens_sorted (items : list OrderItem) :
  StronglySorted kitchen_lt (getUniqueKitchens items).
Proof.
  apply sorted_NoDup_strict; [|apply NoDup_getUniqueKitchens].
  apply Array_sort_sorted.
  - apply compareKitchens_flip.
  - apply compareKitchens_trans.
Qed.

(** The filter of [printKitchenSlip] selects the items of that kitchen. *)
Lemma inKitchen_spec (k : kitchen) (i : OrderItem) :
  inKitchen k i = true ↔ kitchenOf i = k.
Proof.
  unfold inKitchen, kitchenOf.
  destruct k as [n|], (kitchen_number i) as [m| |]; simpl;
    rewrite ?orb_true_iff, ?bool_decide_eq_true; naive_solver.
Qed.

Lemma elem_of_kitchenItemsOf (k : kitchen) (items : list OrderItem) (i : OrderItem) :
  i ∈ kitchenItemsOf k items ↔ i ∈ items ∧ kitchenOf i = k.
Proof.
  unfold kitchenItemsOf.
  rewrite !list_elem_of_In, List.filter_In, inKitchen_spec. done.
Qed.

(** Every kitchen listed for an order has at least one item. *)
Lemma kitchenItemsOf_nonempty (items : list OrderItem) (k : kitchen) :
  k ∈ getUniqueKitchens items → kitchenItemsOf k items ≠ [].
Proof.
  intros (i & Hi & Hk)%elem_of_getUniqueKitchens Hnil.
  assert (Hin : i ∈ kitchenItemsOf k items) by by apply elem_of_kitchenItemsOf.
  rewrite Hnil in Hin. by apply not_elem_of_nil in Hin.
Qed.

Lemma filter_all {A} (p : A → bool) (l : list A) :
  (∀ x, x ∈ l → p x = true) → List.filter p l = l.
Proof.
  induction l as [|x l IH]; intros Hp; simpl; [done|].
  rewrite Hp by left. f_equal. apply IH. intros y Hy. apply Hp. by right.
Qed.

Lemma filter_none {A} (p : A → bool) (l : list A) :
  (∀ x, x ∈ l → p x = false) → List.filter p l = [].
Proof.
  induction l as [|x l IH]; intros Hp; simpl; [done|].
  rewrite Hp by left. apply IH. intros y Hy. apply Hp. by right.
Qed.

(** The slips of kitchens [ks], one after the other, hold the items whose
    kitchen is among [ks]. *)
Lemma kitchenItems_join (items : list OrderItem) (ks : list kitchen) :
  NoDup ks →
  mjoin ((λ k, kitchenItemsOf k items) <$> ks)
    ≡ₚ List.filter (λ i, bool_decide (kitchenOf i ∈ ks)) items.
Proof.
  induction 1 as [|k ks Hk Hks IH].
  - rewrite filter_none; [done|].
    intros i _. apply bool_decide_eq_false_2, not_elem_of_nil.
  - simpl. rewrite IH. clear IH. unfold kitchenItemsOf.
    induction items as [|i items IHi]; simpl; [done|].
    destruct (inKitchen k i) eqn:Hik.
    + apply inKitchen_spec in Hik.
      rewrite (bool_decide_eq_false_2 (kitchenOf i ∈ ks)) by by rewrite Hik.
      rewrite (bool_decide_eq_true_2 (kitchenOf i ∈ k :: ks)) by (rewrite Hik; left).
      simpl. by rewrite IHi.
    + assert (kitchenOf i ≠ k) as Hne.
      { intros Heq%inKitchen_spec. congruence. }
      case_bool_decide as Hin.
      * rewrite (bool_decide_eq_true_2 (kitchenOf i ∈ k :: ks)) by by right.
        rewrite <- Permutation_middle. by rewrite IHi.
      * rewrite (bool_decide_eq_false_2 (kitchenOf i ∈ k :: ks)); [done|].
        intros [?|?]%elem_of_cons; done.
Qed.

(** C1. Partition coverage: partitioning an item list by kitchen key
    ([getUniqueKitchens] for the keys, the filter of [printKitchenSlip] for
    the members) puts every item in exactly one partition, the one of its
    own key: kitchen [n] for [kitchen_number = n], the unassigned ([null])
    partition for a [null] or absent [kitchen_number]; and the partitions
    together are the input list, each item once. *)
Theorem partition_coverage (items : list OrderItem) :
  NoDup (getUniqueKitchens items)
  ∧ (∀ i k, i ∈ items → k ∈ getUniqueKitchens items →
       (i ∈ kitchenItemsOf k items ↔ k = kitchenOf i))
  ∧ (∀ i n, i ∈ items → kitchen_number i = KNum n →
       Some n ∈ getUniqueKitchens items ∧ i ∈ kitchenItemsOf (Some n) items)
  ∧ (∀ i, i ∈ items → kitchen_number i = KNull ∨ kitchen_number i = KUndefined →
       None ∈ getUniqueKitchens items ∧ i ∈ kitchenItemsOf None items)
  ∧ mjoin ((λ k, kitchenItemsOf k items) <$> getUniqueKitchens items) ≡ₚ items.
Proof.
  split_and!.
  - apply NoDup_getUniqueKitchens.
  - intros i k Hi _. rewrite elem_of_kitchenItemsOf.
    split; [by intros [_ ->]|by intros ->].
  - intros i n Hi Hn. rewrite elem_of_getUniqueKitchens, elem_of_kitchenItemsOf.
    assert (kitchenOf i = Some n) by (unfold kitchenOf; by rewrite Hn).
    split; [by exists i|done].
  - intros i Hi Hn. rewrite elem_of_getUniqueKitchens, elem_of_kitchenItemsOf.
    assert (kitchenOf i = None) by (unfold kitchenOf; by destruct Hn as [-> | ->]).
    split; [by exists i|done].
  - rewrite kitchenItems_join by apply NoDup_getUniqueKitchens.
    rewrite filter_all; [done|].
    intros i Hi. apply bool_decide_eq_true, elem_of_getUniqueKitchens. eauto.
Qed.

(* ================================================================== *)
(** * Dispatch of one order *)

Section Dispatch.
Context `{Runtime} `{DeviceSink} (env : Env).

Lemma submitted_jobs sp jobs : (submitted sp jobs).*1 = jobs.
Proof.
  revert sp. induction jobs as [|job jobs IH]; intros sp; simpl; [done|].
  by rewrite IH.
Qed.

Lemma slipJobsFrom_lookup order items total i ks j :
  slipJobsFrom env order items total i ks !! j
  = slipJob env order items total (i + j + 1) <$> ks !! j.
Proof.
  revert i j. induction ks as [|k ks IH]; intros i j; [done|].
  destruct j as [|j]; simpl.
  - by rewrite Nat.add_0_r.
  - rewrite IH. by replace (i + 1 + j + 1)%nat with (i + S j + 1)%nat by lia.
Qed.

Lemma slipJobsFrom_length order items total i ks :
  length (slipJobsFrom env order items total i ks) = length ks.
Proof. revert i. induction ks as [|k ks IH]; intros i; simpl; [done|]. by rewrite IH. Qed.

(** One slip of a kitchen that has items: exactly one job is submitted,
    and the result is the spooler's answer. *)
Lemma printKitchenSlip_send order items k idx total drawer w :
  kitchenItemsOf k items ≠ [] →
  let job := mkJob
               (Doc.toBuffer (buildSlip order items k (kitchenItemsOf k items)
                                idx total drawer))
               (spoolerName env k) in
  let ok := printDirect (spooler w) job in
  printKitchenSlip env order items k idx total drawer w
  = (ok, mkWorld (printedOrders w) (spooler w ++ [(job, ok)])
           (console w ++ [if ok then LogJobQueued (spoolerName env k)
                          else LogPrintError k])).
Proof.
  intros Hne. unfold printKitchenSlip.
  destruct (kitchenItemsOf k items) as [|i0 rest] eqn:Hk; [done|].
  change (length (i0 :: rest) =? 0)%nat with false. cbv iota.
  cbv [io_bind sendToPrinter spoolerName console_log io_ret].
  cbn [spooler printedOrders console].
  destruct (printDirect _ _); done.
Qed.

(** A slip of a kitchen without items sends nothing. *)
Lemma printKitchenSlip_empty order items k idx total drawer w :
  kitchenItemsOf k items = [] →
  printKitchenSlip env order items k idx total drawer w
  = (true, mkWorld (printedOrders w) (spooler w)
             (console w ++ [LogNoItems k])).
Proof. intros Hk. unfold printKitchenSlip. by rewrite Hk. Qed.

(** One turn of the loop of [printOrder], for a kitchen that has items. *)
Lemma printOrder_loop_cons order items total i k ks allSuccess w :
  kitchenItemsOf k items ≠ [] →
  let job := slipJob env order items total (i + 1) k in
  let ok := printDirect (spooler w) job in
  printOrder_loop env order items total i (k :: ks) allSuccess w
  = printOrder_loop env order items total (i + 1) ks (allSuccess && ok)
      (mkWorld (printedOrders w) (spooler w ++ [(job, ok)])
         (console w
            ++ [LogSlip (i + 1) total k;
                if ok then LogJobQueued (spoolerName env k) else LogPrintError k;
                if ok then LogSlipSent k else LogSlipFailed k])).
Proof.
  intros Hk job ok. cbn [printOrder_loop].
  unfold io_bind at 1. cbn [console_log]. unfold io_bind at 1.
  rewrite (printKitchenSlip_send order items k (i + 1) total _ _ Hk).
  cbn [spooler printedOrders console]. fold (slipJob env order items total (i + 1) k).
  fold job. fold ok. unfold io_bind at 1.
  destruct ok, allSuccess; cbv [console_log];
    cbn [console spooler printedOrders andb];
    rewrite <- !app_assoc; reflexivity.
Qed.

Lemma printOrder_loop_spec order items total ks :
  (∀ k, k ∈ ks → kitchenItemsOf k items ≠ []) →
  ∀ i allSuccess w,
    let new := submitted (spooler w) (slipJobsFrom env order items total i ks) in
    let r := printOrder_loop env order items total i ks allSuccess w in
    r.1 = allSuccess && forallb snd new
    ∧ spooler r.2 = spooler w ++ new
    ∧ printedOrders r.2 = printedOrders w.
Proof.
  induction ks as [|k ks IH]; intros Hks i allSuccess w.
  - simpl. rewrite andb_true_r, app_nil_r. done.
  - assert (Hk : kitchenItemsOf k items ≠ []) by (apply Hks; left).
    assert (Hrest : ∀ k', k' ∈ ks → kitchenItemsOf k' items ≠ [])
      by (intros k' ?; apply Hks; by right).
    cbv zeta. rewrite printOrder_loop_cons by done.
    cbn [slipJobsFrom submitted].
    set (job := slipJob env order items total (i + 1) k).
    set (ok := printDirect (spooler w) job).
    edestruct (IH Hrest (i + 1)%nat (allSuccess && ok)) as (IH1 & IH2 & IH3).
    rewrite IH1, IH2, IH3. cbn [spooler printedOrders forallb snd].
    split_and!; [|by rewrite <- app_assoc|done].
    by rewrite andb_assoc.
Qed.

Lemma printOrder_unfold order items w :
  let kitchens := getUniqueKitchens items in
  let r := printOrder_loop env order items (length kitchens) 0 kitchens true
             (mkWorld (printedOrders w) (spooler w)
                (console w ++ [LogKitchens kitchens;
                               LogPrinting (length kitchens)])) in
  printOrder env order items w = ((r.1, kitchens), r.2).
Proof.
  intros kitchens r. subst r. unfold printOrder. fold kitchens.
  cbv [io_bind console_log io_ret]. cbn [spooler printedOrders console].
  rewrite <- app_assoc. cbn [app].
  by destruct (printOrder_loop _ _ _ _ _ _ _ _).
Qed.

(** [printOrder] submits the slips of the kitchens of the order, one
    each, in the order of [getUniqueKitchens]; it succeeds when the
    spooler accepted them all, and does not touch the ledger. *)
Lemma printOrder_spec order items w :
  let kitchens := getUniqueKitchens items in
  let new := submitted (spooler w)
               (slipJobsFrom env order items (length kitchens) 0 kitchens) in
  let r := printOrder env order items w in
  r.1 = (forallb snd new, kitchens)
  ∧ spooler r.2 = spooler w ++ new
  ∧ printedOrders r.2 = printedOrders w.
Proof.
  intros kitchens new r. subst r. rewrite printOrder_unfold. fold kitchens.
  cbn [fst snd].
  edestruct (printOrder_loop_spec order items (length kitchens) kitchens
               (kitchenItemsOf_nonempty items) 0%nat true) as (H1 & H2 & H3).
  rewrite H1, H2, H3. done.
Qed.
End Dispatch.

Lemma sorted_unassigned_last (l : list kitchen) :
  StronglySorted kitchen_lt l → None ∈ l → last l = Some None.
Proof.
  induction 1 as [|x l Hl IH Hx]; intros Hin.
  - by apply not_elem_of_nil in Hin.
  - destruct l as [|y l].
    + apply list_elem_of_singleton in Hin. by subst.
    + change (last (x :: y :: l)) with (last (y :: l)). apply IH.
      apply elem_of_cons in Hin as [<-|Hin]; [|done].
      exfalso. apply Forall_cons in Hx as [Hxy _]. inversion Hxy.
Qed.

Lemma getUniqueKitchens_perm (items items' : list OrderItem) :
  items' ≡ₚ items → getUniqueKitchens items' = getUniqueKitchens items.
Proof.
  intros Hp. apply strict_sorted_unique; try apply getUniqueKitchens_sorted.
  intros k. rewrite !elem_of_getUniqueKitchens.
  split; intros (i & Hi & Hk); exists i; split; try done.
  - by rewrite <- Hp.
  - by rewrite Hp.
Qed.

(** C2. Partition ordering: whatever the order of the items in the
    input, [getUniqueKitchens] returns the distinct kitchen keys of the
    items, numbered kitchens in ascending order and the unassigned
    ([null]) key last; [printOrder] prints the slips in that order and
    numbers slip [j + 1] the [j]-th key. *)
Theorem partition_ordering `{Runtime} `{DeviceSink} (env : Env)
    (items : list OrderItem) :
  let kitchens := getUniqueKitchens items in
  StronglySorted kitchen_lt kitchens
  ∧ (∀ k, k ∈ kitchens ↔ ∃ i, i ∈ items ∧ kitchenOf i = k)
  ∧ (None ∈ kitchens → last kitchens = Some None)
  ∧ (∀ items', items' ≡ₚ items → getUniqueKitchens items' = kitchens)
  ∧ (∀ order w,
       (spooler (printOrder env order items w).2).*1
       = (spooler w).*1
         ++ slipJobsFrom env order items (length kitchens) 0 kitchens)
  ∧ (∀ order j,
       slipJobsFrom env order items (length kitchens) 0 kitchens !! j
       = slipJob env order items (length kitchens) (j + 1) <$> kitchens !! j).
Proof.
  intros kitchens. split_and!.
  - apply getUniqueKitchens_sorted.
  - apply elem_of_getUniqueKitchens.
  - apply sorted_unassigned_last, getUniqueKitchens_sorted.
  - apply getUniqueKitchens_perm.
  - intros order w.
    destruct (printOrder_spec env order items w) as (_ & Hsp & _).
    rewrite Hsp, fmap_app, submitted_jobs. done.
  - intros order j. by rewrite slipJobsFrom_lookup.
Qed.

(** C4. Failure isolation and overall success: [printOrder] submits the
    slip of every kitchen of the order exactly once, in the order of the
    kitchen list, whatever the spooler answers to each of them; the
    answers recorded are the spooler's, and the [success] flag returned is
    true if and only if every one of these slips was accepted. *)
Theorem printOrder_isolation `{Runtime} `{DeviceSink} (env : Env)
    (order : Order) (items : list OrderItem) (w : World) :
  let kitchens := getUniqueKitchens items in
  let r := printOrder env order items w in
  ∃ attempts : list (PrintJob * bool),
    spooler r.2 = spooler w ++ attempts
    ∧ attempts.*1 = slipJobsFrom env order items (length kitchens) 0 kitchens
    ∧ length attempts = length kitchens
    ∧ attempts = submitted (spooler w) attempts.*1
    ∧ r.1.2 = kitchens
    ∧ (r.1.1 = true ↔ ∀ a, a ∈ attempts → a.2 = true).
Proof.
  intros kitchens r.
  destruct (printOrder_spec env order items w) as (Hr & Hsp & _).
  fold kitchens r in Hr, Hsp.
  set (jobs := slipJobsFrom env order items (length kitchens) 0 kitchens) in *.
  exists (submitted (spooler w) jobs). split_and!.
  - done.
  - apply submitted_jobs.
  - rewrite <- (length_fmap fst), submitted_jobs. apply slipJobsFrom_length.
  - by rewrite submitted_jobs.
  - by rewrite Hr.
  - rewrite Hr. cbn [fst]. rewrite forallb_forall.
    split; intros Hall a Ha; apply Hall; by apply list_elem_of_In.
Qed.

(* ================================================================== *)
(** * The bytes of a slip *)

Section SlipBytes.
Context `{Runtime}.

Lemma printKitchenSlip_sent `{DeviceSink} env order items k idx total drawer w :
  sentBetween w (printKitchenSlip env order items k idx total drawer w).2
  = slipBytes order items k idx total drawer.
Proof.
  unfold sentBetween, slipBytes.
  destruct (kitchenItemsOf k items) as [|i0 rest] eqn:Hk.
  - rewrite printKitchenSlip_empty by done. cbn [snd spooler].
    by rewrite drop_all.
  - rewrite printKitchenSlip_send by (by rewrite Hk). cbn [snd spooler].
    rewrite drop_app_length. rewrite Hk. done.
Qed.

(** The builder only appends. *)
Lemma toBuffer_app a b :
  Doc.toBuffer (mkEscPos (a ++ b))
  = Doc.toBuffer (mkEscPos a) ++ ((λ c, Z.land c 0xFF) <$> b).
Proof. unfold Doc.toBuffer. cbn [bytes]. by rewrite fmap_app. Qed.

Lemma buildSlip_bytes order items k kitchenItems idx total drawer :
  Doc.toBuffer (buildSlip order items k kitchenItems idx total drawer)
  = Doc.toBuffer (slipContent order items k kitchenItems idx total)
    ++ CMD.CUT_PARTIAL ++ (if drawer then CMD.CASH_DRAWER else []).
Proof.
  unfold buildSlip, cutAndDrawer, Doc.cutPartial, Doc.cashDrawer, Doc._add.
  destruct drawer; cbn [bytes].
  - rewrite <- app_assoc, toBuffer_app, fmap_app. done.
  - rewrite toBuffer_app, app_nil_r. done.
Qed.
End SlipBytes.

(** C10. A slip for a kitchen key that matches no item of the list:
    [printKitchenSlip] returns [true] and hands nothing to the spooler. *)
Theorem printKitchenSlip_no_items `{Runtime} `{DeviceSink} (env : Env)
    (order : Order) (items : list OrderItem) (k : kitchen) (idx total : nat)
    (drawer : bool) (w : World) :
  Forall (λ i, kitchenOf i ≠ k) items →
  let r := printKitchenSlip env order items k idx total drawer w in
  r.1 = true
  ∧ spooler r.2 = spooler w
  ∧ sentBetween w r.2 = []
  ∧ printedOrders r.2 = printedOrders w.
Proof.
  intros Hno r.
  assert (Hk : kitchenItemsOf k items = []).
  { destruct (kitchenItemsOf k items) as [|i rest] eqn:Hk; [done|]. exfalso.
    assert (Hi : i ∈ kitchenItemsOf k items) by (rewrite Hk; left).
    apply elem_of_kitchenItemsOf in Hi as [Hi Hki].
    rewrite Forall_forall in Hno. by apply (Hno i). }
  subst r. rewrite printKitchenSlip_empty by done. cbn [fst snd spooler printedOrders].
  split_and!; try done.
  unfold sentBetween. cbn [spooler]. by rewrite drop_all.
Qed.

(** C9. Deterministic slip building: two calls of [printKitchenSlip] with
    the same order, item set, kitchen key, slip index, slip count and
    drawer flag encode the same bytes, whatever the state of the world, the
    environment and the spooler at either call. *)
Theorem slip_build_deterministic `{Runtime} (sink1 sink2 : DeviceSink)
    (env1 env2 : Env) (order : Order) (items : list OrderItem) (k : kitchen)
    (idx total : nat) (drawer : bool) (w1 w2 : World) :
  sentBetween w1
    (@printKitchenSlip _ sink1 env1 order items k idx total drawer w1).2
  = sentBetween w2
      (@printKitchenSlip _ sink2 env2 order items k idx total drawer w2).2
  ∧ sentBetween w1
      (@printKitchenSlip _ sink1 env1 order items k idx total drawer w1).2
    = slipBytes order items k idx total drawer.
Proof. by rewrite !printKitchenSlip_sent. Qed.

Lemma printOrder_sent `{Runtime} `{DeviceSink} (env : Env) order items w :
  sentBetween w (printOrder env order items w).2
  = job_data <$> slipJobsFrom env order items
                   (length (getUniqueKitchens items)) 0 (getUniqueKitchens items).
Proof.
  destruct (printOrder_spec env order items w) as (_ & Hsp & _).
  unfold sentBetween. rewrite Hsp, drop_app_length.
  rewrite <- (submitted_jobs (spooler w)) at 2.
  by rewrite <- list_fmap_compose.
Qed.

Lemma cut_not_drawer (content : list Z) :
  ¬ CMD.CASH_DRAWER `suffix_of` content ++ CMD.CUT_PARTIAL.
Proof.
  intros [pre Hpre].
  apply (f_equal last) in Hpre.
  change CMD.CUT_PARTIAL with ([GS; 0x56; 0x41] ++ [0x00]) in Hpre.
  change CMD.CASH_DRAWER with ([ESC; 0x70; 0x00; 0x19] ++ [0xFA]) in Hpre.
  rewrite !app_assoc, !last_snoc in Hpre. done.
Qed.

(** An occurrence of the pulse sequence in [content ++ cut] lies within
    [content]: no part of the cut directive can complete it. *)
Lemma pulse_not_across_cut (content : list Z) :
  includes CMD.CASH_DRAWER (content ++ CMD.CUT_PARTIAL)
  → includes CMD.CASH_DRAWER content.
Proof.
  intros (pre & post & Heq).
  destruct (decide (4 ≤ length post)%nat) as [Hlen|Hlen].
  - rewrite <- (take_drop (length post - 4) post) in Heq.
    rewrite !app_assoc in Heq.
    apply app_inj_2 in Heq as [-> _].
    + eexists pre, _. by rewrite <- !app_assoc.
    + rewrite length_drop. simpl. lia.
  - exfalso. unfold CMD.CASH_DRAWER, CMD.CUT_PARTIAL, ESC, GS in Heq.
    destruct post as [|a [|b [|c [|d post]]]]; [| | | |simpl in Hlen; lia].
    + change (pre ++ [0x1B; 0x70; 0x00; 0x19; 0xFA] ++ [])
        with (pre ++ [0x1B] ++ [0x70; 0x00; 0x19; 0xFA]) in Heq.
      rewrite app_assoc in Heq. by apply app_inj_2 in Heq as [_ ?].
    + change (pre ++ [0x1B; 0x70; 0x00; 0x19; 0xFA] ++ [a])
        with (pre ++ [0x1B; 0x70] ++ [0x00; 0x19; 0xFA; a]) in Heq.
      rewrite app_assoc in Heq. by apply app_inj_2 in Heq as [_ ?].
    + change (pre ++ [0x1B; 0x70; 0x00; 0x19; 0xFA] ++ [a; b])
        with (pre ++ [0x1B; 0x70; 0x00] ++ [0x19; 0xFA; a; b]) in Heq.
      rewrite app_assoc in Heq. by apply app_inj_2 in Heq as [_ ?].
    + change (pre ++ [0x1B; 0x70; 0x00; 0x19; 0xFA] ++ [a; b; c])
        with (pre ++ [0x1B; 0x70; 0x00; 0x19] ++ [0xFA; a; b; c]) in Heq.
      rewrite app_assoc in Heq. by apply app_inj_2 in Heq as [_ ?].
Qed.

(** C8 (as amended). Cash-drawer pulse: in a [printOrder] call the bytes
    of slip [j + 1] are the slip content, the cut, and then the drawer
    pulse directive exactly when the cash-drawer feature is enabled, the
    payment method is cash and the slip is the first one; the encoded
    output ends with the pulse sequence in that case and in no other.  The
    pulse sequence occurs somewhere in the output exactly when that
    condition holds or the slip content before the cut already holds these
    five bytes: text is written without escaping. *)
Theorem drawer_pulse_first_slip `{Runtime} `{DeviceSink} (env : Env)
    (order : Order) (items : list OrderItem) (j : nat) (k : kitchen) (w : World) :
  getUniqueKitchens items !! j = Some k →
  let total := length (getUniqueKitchens items) in
  let pulse :=
    bool_decide (env !! js "OPEN_CASH_DRAWER" = Some (js "true"))
    && jsstring_eqb (payment_method order) (js "cash")
    && (j + 1 =? 1)%nat in
  ∃ data : list Z,
    sentBetween w (printOrder env order items w).2 !! j = Some data
    ∧ data
      = Doc.toBuffer (slipContent order items k (kitchenItemsOf k items) (j + 1) total)
        ++ CMD.CUT_PARTIAL ++ (if pulse then CMD.CASH_DRAWER else [])
    ∧ (CMD.CASH_DRAWER `suffix_of` data
       ↔ env !! js "OPEN_CASH_DRAWER" = Some (js "true")
         ∧ payment_method order = js "cash"
         ∧ (j + 1 = 1)%nat)
    ∧ (includes CMD.CASH_DRAWER data
       ↔ (env !! js "OPEN_CASH_DRAWER" = Some (js "true")
          ∧ payment_method order = js "cash"
          ∧ (j + 1 = 1)%nat)
         ∨ includes CMD.CASH_DRAWER
             (Doc.toBuffer
                (slipContent order items k (kitchenItemsOf k items) (j + 1) total))).
Proof.
  intros Hj total pulse.
  assert (Hpulse : pulse = true
                   ↔ env !! js "OPEN_CASH_DRAWER" = Some (js "true")
                     ∧ payment_method order = js "cash" ∧ (j + 1 = 1)%nat).
  { unfold pulse, jsstring_eqb.
    rewrite !andb_true_iff, !bool_decide_eq_true, Nat.eqb_eq. tauto. }
  eexists. split_and!.
  - rewrite printOrder_sent, list_lookup_fmap, slipJobsFrom_lookup, Hj.
    cbn [fmap option_fmap option_map slipJob job_data]. reflexivity.
  - rewrite buildSlip_bytes. reflexivity.
  - rewrite buildSlip_bytes. fold total.
    change (openDrawerAt env order (0 + j + 1)) with pulse.
    rewrite <- Hpulse. destruct pulse.
    + split; [done|]. intros _. rewrite app_assoc. by eexists.
    + rewrite app_nil_r. split; [|done].
      by intros ?%cut_not_drawer.
  - rewrite buildSlip_bytes. fold total.
    change (openDrawerAt env order (0 + j + 1)) with pulse.
    rewrite <- Hpulse. destruct pulse.
    + split; [by left|]. intros _.
      eexists (_ ++ CMD.CUT_PARTIAL), []. by rewrite app_nil_r, <- app_assoc.
    + rewrite app_nil_r. split.
      * intros Hin. right. by apply pulse_not_across_cut.
      * intros [?|Hin]; [done|]. by apply includes_app_l.
Qed.

(** C8 as stated fails: with the drawer disabled and an order paid
    online, a customer name whose characters have the codes 0x11B, 0x70,
    0x100, 0x119 and 0xFA puts the pulse sequence 1B 70 00 19 FA into every
    slip of the order. *)
Lemma pulse_bytes_from_customer_name :
  let sent :=
    sentBetween initialWorld
      (@printOrder Sample.runtime Sample.acceptAll Quiet.env Injection.order
         Sample.items initialWorld).2 in
  Quiet.env !! js "OPEN_CASH_DRAWER" = None
  ∧ payment_method Injection.order = js "online"
  ∧ Doc.toBuffer (Doc.new |> Doc._text [0x11B; 0x70; 0x100; 0x119; 0xFA])
    = CMD.CASH_DRAWER
  ∧ length sent = 3%nat
  ∧ Forall (includes CMD.CASH_DRAWER) sent.
Proof.
  intros sent. split_and!; [reflexivity| reflexivity| reflexivity| |].
  - subst sent. rewrite printOrder_sent. vm_compute. reflexivity.
  - assert (Hb : Forall (λ data, includesb CMD.CASH_DRAWER data = true) sent).
    { subst sent. rewrite printOrder_sent. apply Forall_forall.
      intros data Hdata. revert data Hdata. apply Forall_forall.
      vm_compute. repeat constructor. }
    eapply Forall_impl; [exact Hb|]. intros data. apply includesb_sound.
Qed.

(* ================================================================== *)
(** * The totals of the order *)

Lemma uint_digits_digit (u : Decimal.uint) : Forall is_digit (uint_digits u).
Proof. induction u; simpl; constructor; try done; unfold is_digit; lia. Qed.

Lemma String_of_int_digits (n : Z) : 0 ≤ n → Forall is_digit (String_of_int n).
Proof.
  intros Hn. unfold String_of_int. destruct n as [|p|p]; simpl.
  - repeat constructor; unfold is_digit; lia.
  - apply uint_digits_digit.
  - lia.
Qed.

Lemma fixed2_digits_shape (n : Z) :
  0 ≤ n →
  ∃ int d1 d2,
    fixed2_digits n = int ++ [46; d1; d2]
    ∧ int ≠ []
    ∧ Forall is_digit (int ++ [d1; d2]).
Proof.
  intros Hn. unfold fixed2_digits.
  set (m := padStart (String_of_int n) 3 48).
  assert (Hdig : Forall is_digit m).
  { unfold m, padStart. apply Forall_app. split.
    - apply Forall_replicate. unfold is_digit. lia.
    - by apply String_of_int_digits. }
  assert (Hlen : (3 ≤ length m)%nat).
  { unfold m, padStart. rewrite length_app, length_replicate. lia. }
  rewrite <- (take_drop (length m - 2) m) in Hdig.
  assert (Hd : length (drop (length m - 2) m) = 2%nat) by (rewrite length_drop; lia).
  assert (Ht : length (take (length m - 2) m) ≠ 0%nat) by (rewrite length_take; lia).
  destruct (drop (length m - 2) m) as [|d1 [|d2 [|? ?]]]; try done.
  exists (take (length m - 2) m), d1, d2. split_and!; [done| |done].
  intros Hnil. by rewrite Hnil in Ht.
Qed.

Lemma nearest_hundredth_nonneg (m : positive) (e : Z) : 0 ≤ nearest_hundredth m e.
Proof.
  unfold nearest_hundredth. destruct (0 <=? e) eqn:He.
  - apply Z.leb_le in He. pose proof (Z.pow_nonneg 2 e). nia.
  - apply Z.leb_gt in He.
    assert (0 < 2 ^ (- e + 1)) by (apply Z.pow_pos_nonneg; lia).
    assert (0 ≤ 2 ^ (- e)) by (apply Z.pow_nonneg; lia).
    apply Z.div_pos; lia.
Qed.

Lemma toFixed2_two_decimals `{Runtime} (x : float) :
  fixed_range x → two_decimals (toFixed2 x).
Proof.
  unfold fixed_range, toFixed2. destruct (Prim2SF x) as [s|s| |s m e]; try done.
  - intros _. exists [], [48], 48, 48. split_and!; try done; [by left|].
    repeat constructor; unfold is_digit; lia.
  - intros ->.
    destruct (fixed2_digits_shape (nearest_hundredth m e)
                (nearest_hundredth_nonneg m e)) as (int & d1 & d2 & -> & Hint & Hdig).
    exists (if s then [45] else []), int, d1, d2.
    split_and!; try done. destruct s; [by right|by left].
Qed.

Section Totals.
Context `{Runtime}.

Lemma orderTotals_bytes order items doc :
  bytes (orderTotals order items doc) = bytes doc ++ totalsBlock order items.
Proof.
  unfold totalsBlock, orderTotals, Doc.leftRight, Doc.drawLine, Doc.println,
    Doc.alignLeft, Doc.boldOn, Doc.boldOff, Doc._text, Doc._add, Doc.new.
  cbn [bytes Doc.feed Doc._add]. by rewrite <- !app_assoc.
Qed.

Lemma slipFooter_bytes order doc :
  bytes (slipFooter order doc) = bytes doc ++ bytes (slipFooter order Doc.new).
Proof.
  unfold slipFooter, Doc.println, Doc.alignCenter, Doc.boldOn, Doc.boldOff,
    Doc._text, Doc.new.
  destruct (jsstring_eqb _ _); cbn [bytes Doc.feed Doc._add];
    by rewrite <- !app_assoc.
Qed.

Lemma totalsBlock_lines order items :
  totalsBlock order items
  = CMD.ALIGN_LEFT ++ lineBytes (str_repeat BOX_DASH 48)
    ++ lineBytes (Doc.leftRightText (js "Order Subtotal:")
                    (toFixed2 (allSubtotal items)) 48)
    ++ lineBytes (Doc.leftRightText (js "Service Charges (2%):")
                    (toFixed2 (serviceCharge items)) 48)
    ++ CMD.BOLD_ON
    ++ lineBytes (Doc.leftRightText
                    ((if jsstring_eqb (payment_method order) (js "cash")
                      then js "Cash" else js "Online") ++ js " (Total):")
                    (toFixed2 (grandTotal items)) 48)
    ++ CMD.BOLD_OFF ++ CMD.LINE_FEED
    ++ CMD.ALIGN_LEFT ++ lineBytes (str_repeat BOX_DASH 48).
Proof.
  unfold totalsBlock, orderTotals, lineBytes, Doc.leftRight, Doc.drawLine,
    Doc.println, Doc.alignLeft, Doc.boldOn, Doc.boldOff, Doc._text, Doc._add,
    Doc.new.
  cbn [bytes Doc.feed Doc._add]. by rewrite <- !app_assoc.
Qed.

(** Every slip carries the totals block of the whole order. *)
Lemma slip_holds_totals order items k kitchenItems idx total drawer :
  ∃ before after : list Z,
    bytes (buildSlip order items k kitchenItems idx total drawer)
    = before ++ totalsBlock order items ++ after.
Proof.
  unfold buildSlip, slipContent.
  destruct (lineItems kitchenItems _) as [doc kitchenSubtotal].
  exists (bytes (kitchenSubtotalBlock k total kitchenSubtotal doc)),
    (bytes (slipFooter order Doc.new) ++ CMD.CUT_PARTIAL
     ++ (if drawer then CMD.CASH_DRAWER else [])).
  unfold cutAndDrawer, Doc.cutPartial, Doc.cashDrawer, Doc._add.
  destruct drawer; cbn [bytes];
    rewrite slipFooter_bytes, orderTotals_bytes, <- ?app_assoc;
    rewrite ?app_nil_r; reflexivity.
Qed.
End Totals.

Lemma toFixed2_outside_range `{Runtime} (x : float) :
  ¬ fixed_range x → toFixed2 x = Number_toString x.
Proof.
  unfold fixed_range, toFixed2. destruct (Prim2SF x) as [s|s| |s m e]; try done.
  destruct (at_least_1e21 m e); done.
Qed.

(** C7 (as amended). Totals arithmetic: every slip of an order carries
    the totals block of the whole item set, whatever the kitchen of the
    slip: the subtotal is the sum over all items of unit price times
    quantity, the service charge is that subtotal times 0.02, the grand
    total is their sum (all in binary64 arithmetic, as JavaScript computes
    them), each written by [toFixed(2)]: with exactly two decimal places
    when the amount is finite and below 10^21 in magnitude, and as
    JavaScript's conversion of the number to a string otherwise; for the
    items (120.00 x 2) and (15.00 x 3) the amounts written are 285.00, 5.70
    and 290.70. *)
Theorem totals_arithmetic `{Runtime} (order : Order) (items : list OrderItem) :
  let subtotal :=
    foldl (λ sum i, (sum + item_price i * Number_of_int (quantity i))%float)
      0%float items in
  let service := (subtotal * 0.02)%float in
  let grand := (subtotal + service)%float in
  (∀ k kitchenItems idx total drawer,
     ∃ before after : list Z,
       Doc.toBuffer (buildSlip order items k kitchenItems idx total drawer)
       = before ++ ((λ b, Z.land b 0xFF) <$> totalsBlock order items) ++ after)
  ∧ totalsBlock order items
    = CMD.ALIGN_LEFT ++ lineBytes (str_repeat BOX_DASH 48)
      ++ lineBytes (Doc.leftRightText (js "Order Subtotal:")
                      (toFixed2 subtotal) 48)
      ++ lineBytes (Doc.leftRightText (js "Service Charges (2%):")
                      (toFixed2 service) 48)
      ++ CMD.BOLD_ON
      ++ lineBytes (Doc.leftRightText
                      ((if jsstring_eqb (payment_method order) (js "cash")
                        then js "Cash" else js "Online") ++ js " (Total):")
                      (toFixed2 grand) 48)
      ++ CMD.BOLD_OFF ++ CMD.LINE_FEED
      ++ CMD.ALIGN_LEFT ++ lineBytes (str_repeat BOX_DASH 48)
  ∧ allSubtotal items = subtotal
  ∧ serviceCharge items = service
  ∧ grandTotal items = grand
  ∧ Forall (λ amount,
              (fixed_range amount → two_decimals (toFixed2 amount))
              ∧ (¬ fixed_range amount → toFixed2 amount = Number_toString amount))
      [subtotal; service; grand]
  ∧ (∀ x, fixed_range x → two_decimals (toFixed2 x))
  ∧ (∀ name1 name2 kitchen1 kitchen2,
       let sample := [mkItem name1 2 120.00%float kitchen1;
                      mkItem name2 3 15.00%float kitchen2] in
       toFixed2 (allSubtotal sample) = js "285.00"
       ∧ toFixed2 (serviceCharge sample) = js "5.70"
       ∧ toFixed2 (grandTotal sample) = js "290.70").
Proof.
  intros subtotal service grand. split_and!.
  - intros k kitchenItems idx total drawer.
    destruct (slip_holds_totals order items k kitchenItems idx total drawer)
      as (before & after & Hb).
    exists ((λ b, Z.land b 0xFF) <$> before), ((λ b, Z.land b 0xFF) <$> after).
    unfold Doc.toBuffer. by rewrite Hb, !fmap_app.
  - apply totalsBlock_lines.
  - reflexivity.
  - reflexivity.
  - reflexivity.
  - repeat constructor;
      first [apply toFixed2_two_decimals | apply toFixed2_outside_range].
  - intros x. apply toFixed2_two_decimals.
  - intros name1 name2 kitchen1 kitchen2 sample. subst sample.
    split_and!; vm_compute; reflexivity.
Qed.

(** C7 as stated fails: the subtotal of an order of 10^21 is written
    "1e+21", with no decimal place, and the slip carries that line; the
    grand total is written "1.02e+21". *)
Lemma subtotal_without_decimals :
  @toFixed2 Large.runtime (allSubtotal Large.items) = js "1e+21"
  ∧ (46 ∉ @toFixed2 Large.runtime (allSubtotal Large.items))
  ∧ @toFixed2 Large.runtime (grandTotal Large.items) = js "1.02e+21"
  ∧ includes
      (lineBytes (Doc.leftRightText (js "Order Subtotal:") (js "1e+21") 48))
      (Doc.toBuffer (@buildSlip Large.runtime (Sample.order (js "a1"))
                       Large.items (Some 1) Large.items 1 1 false)).
Proof.
  assert (Hsub : @toFixed2 Large.runtime (allSubtotal Large.items) = js "1e+21")
    by (vm_compute; reflexivity).
  split_and!.
  - exact Hsub.
  - rewrite Hsub. compute_done.
  - vm_compute. reflexivity.
  - apply includesb_sound. vm_compute. reflexivity.
Qed.

(* ================================================================== *)
(** * The printed-orders ledger *)

Lemma trimLedger_within (ledger : list jsstring) :
  (length ledger ≤ LEDGER_LIMIT)%nat → trimLedger ledger = ledger.
Proof.
  intros Hlen. unfold trimLedger, JSSet.size.
  destruct (LEDGER_LIMIT <? length ledger)%nat eqn:Hlt; [|done].
  apply Nat.ltb_lt in Hlt. lia.
Qed.

(** Over the limit, the trim drops the oldest entry and no other. *)
Lemma trimLedger_over (oldest : jsstring) (rest : list jsstring) :
  NoDup (oldest :: rest) → (LEDGER_LIMIT ≤ length rest)%nat →
  trimLedger (oldest :: rest) = rest.
Proof.
  intros Hnd Hlen. unfold trimLedger, JSSet.size, JSSet.first.
  cbn [length head].
  destruct (LEDGER_LIMIT <? S (length rest))%nat eqn:Hlt.
  - by apply JSSetFacts.delete_head.
  - apply Nat.ltb_ge in Hlt. lia.
Qed.

Lemma trimLedger_NoDup (ledger : list jsstring) :
  NoDup ledger → NoDup (trimLedger ledger).
Proof.
  intros Hnd. unfold trimLedger, JSSet.first, JSSet.delete.
  destruct (_ <? _)%nat; [|done].
  destruct (head ledger); [|done]. by apply NoDup_filter.
Qed.

Lemma trimLedger_bound (ledger : list jsstring) :
  NoDup ledger → (length ledger ≤ S LEDGER_LIMIT)%nat →
  (length (trimLedger ledger) ≤ LEDGER_LIMIT)%nat.
Proof.
  intros Hnd Hlen.
  destruct (decide (length ledger ≤ LEDGER_LIMIT)%nat) as [Hle|Hgt].
  - by rewrite trimLedger_within.
  - destruct ledger as [|oldest rest]; [simpl in Hgt; lia|].
    cbn [length] in Hlen, Hgt.
    rewrite trimLedger_over by (done || lia). lia.
Qed.

Lemma add_length_bound (x : jsstring) (ledger : list jsstring) :
  (length (JSSet.add x ledger) ≤ S (length ledger))%nat.
Proof.
  unfold JSSet.add. destruct (JSSet.has x ledger); [lia|].
  rewrite length_app. simpl. lia.
Qed.

Section Ledger.
Context `{Runtime} `{DeviceSink} `{OrderStore} (env : Env).

(** A handle call for an order that is in the ledger is skipped: nothing
    is fetched or printed, and only a console line is written. *)
Lemma handlePaidOrder_skipped record w :
  id record ∈ printedOrders w →
  handlePaidOrder env record w
  = (tt, mkWorld (printedOrders w) (spooler w)
           (console w ++ [LogAlreadyPrinted (order_number record)])).
Proof.
  intros Hin. unfold handlePaidOrder, JSSet.has.
  by rewrite bool_decide_eq_true_2.
Qed.

(** A handle call that does not reach the printer leaves ledger and
    spooler as they are. *)
Lemma handlePaidOrder_not_printed record w :
  id record ∉ printedOrders w →
  fetchOrderDetails (id record) = None ∨ autoPrintEnabled (config env) = false →
  let w' := (handlePaidOrder env record w).2 in
  printedOrders w' = printedOrders w ∧ spooler w' = spooler w.
Proof.
  intros Hnotin Hcase. unfold handlePaidOrder, JSSet.has.
  rewrite bool_decide_eq_false_2 by done.
  cbv [io_bind console_log].
  destruct (fetchOrderDetails (id record)) as [[order items]|]; [|done].
  destruct Hcase as [?| ->]; done.
Qed.

(** A handle call that reaches the printer: the slips of the order are
    submitted, and the order enters the ledger when all were accepted. *)
Lemma handlePaidOrder_dispatch record order items w :
  id record ∉ printedOrders w →
  fetchOrderDetails (id record) = Some (order, items) →
  autoPrintEnabled (config env) = true →
  let kitchens := getUniqueKitchens items in
  let new := submitted (spooler w)
               (slipJobsFrom env order items (length kitchens) 0 kitchens) in
  let w' := (handlePaidOrder env record w).2 in
  spooler w' = spooler w ++ new
  ∧ printedOrders w'
    = trimLedger (if forallb snd new
                  then JSSet.add (id record) (printedOrders w)
                  else printedOrders w).
Proof.
  intros Hnotin Hfetch Hauto kitchens new.
  unfold handlePaidOrder, JSSet.has.
  rewrite bool_decide_eq_false_2 by done. rewrite Hfetch, Hauto.
  cbv [io_bind console_log negb]. cbn [printedOrders spooler console].
  match goal with
  | |- context [printOrder env order items ?w0] =>
      pose proof (printOrder_spec env order items w0) as (Hr & Hsp & Hpo);
      destruct (printOrder env order items w0) as [[success ks] w1]
  end.
  cbn [fst snd printedOrders spooler console] in *.
  fold kitchens in Hr, Hsp. fold new in Hr, Hsp.
  injection Hr as -> ->.
  destruct (forallb snd new);
    cbv [printedOrders_add printedOrders_trim];
    cbn [fst snd printedOrders spooler console];
    rewrite ?Hpo; done.
Qed.

(** The ledger after a handle call is the ledger before, or the trim of
    the ledger with the handled order added. *)
Lemma handlePaidOrder_ledger record w :
  let w' := (handlePaidOrder env record w).2 in
  printedOrders w' = printedOrders w
  ∨ printedOrders w' = trimLedger (printedOrders w)
  ∨ ((id record ∉ printedOrders w)
     ∧ printedOrders w'
       = trimLedger (JSSet.add (id record) (printedOrders w))).
Proof.
  destruct (decide (id record ∈ printedOrders w)) as [Hin|Hnotin].
  { left. by rewrite handlePaidOrder_skipped. }
  destruct (fetchOrderDetails (id record)) as [[order items]|] eqn:Hfetch.
  2:{ left. apply handlePaidOrder_not_printed; auto. }
  destruct (autoPrintEnabled (config env)) eqn:Hauto.
  2:{ left. apply handlePaidOrder_not_printed; auto. }
  destruct (handlePaidOrder_dispatch record order items w Hnotin Hfetch Hauto)
    as [_ Hledger].
  cbv zeta. rewrite Hledger. destruct (forallb _ _); auto.
Qed.

Lemma handlePaidOrder_ledger_ok record w :
  ledger_ok w → ledger_ok (handlePaidOrder env record w).2.
Proof.
  intros [Hnd Hlen]. unfold ledger_ok.
  destruct (handlePaidOrder_ledger record w) as [-> | [-> | [_ ->]]].
  - done.
  - by rewrite trimLedger_within.
  - split.
    + by apply trimLedger_NoDup, JSSetFacts.NoDup_add.
    + apply trimLedger_bound; [by apply JSSetFacts.NoDup_add|].
      pose proof (add_length_bound (id record) (printedOrders w)). lia.
Qed.

Lemma handleAll_ledger_ok records w :
  ledger_ok w → ledger_ok (handleAll env records w).
Proof.
  revert w. induction records as [|record records IH]; intros w Hw; [done|].
  apply IH. by apply handlePaidOrder_ledger_ok.
Qed.

Lemma handleAll_snoc records record w :
  handleAll env (records ++ [record]) w
  = (handlePaidOrder env record (handleAll env records w)).2.
Proof. unfold handleAll. by rewrite foldl_app. Qed.
End Ledger.

Lemma trimLedger_add_fresh (x : jsstring) (ledger : list jsstring) :
  NoDup ledger → (length ledger ≤ LEDGER_LIMIT)%nat → x ∉ ledger →
  trimLedger (JSSet.add x ledger)
  = if decide (length ledger < LEDGER_LIMIT)%nat then ledger ++ [x]
    else tail ledger ++ [x].
Proof.
  intros Hnd Hlen Hx. rewrite JSSetFacts.add_fresh by done.
  destruct (decide _) as [Hlt|Hge].
  - apply trimLedger_within. rewrite length_app. simpl. lia.
  - destruct ledger as [|oldest rest]; [unfold LEDGER_LIMIT in Hge; simpl in Hge; lia|].
    cbn [tail app]. apply trimLedger_over.
    + rewrite app_comm_cons. apply NoDup_app. split_and!; [done| |apply NoDup_singleton].
      intros y Hy ->%list_elem_of_singleton. done.
    + rewrite length_app. cbn [length] in *. lia.
Qed.

(** C5. Ledger bound and FIFO eviction: after any sequence of handle
    calls from process start the printed-orders ledger holds no more than
    200 entries; an order fully dispatched while the ledger holds fewer
    than 200 is appended after the entries already there, and one fully
    dispatched while it holds 200 takes the place of the entry at the head,
    the oldest inserted. *)
Theorem ledger_bound_fifo `{Runtime} `{DeviceSink} `{OrderStore} (env : Env) :
  (∀ records,
     let w := handleAll env records initialWorld in
     NoDup (printedOrders w) ∧ (length (printedOrders w) ≤ 200)%nat)
  ∧ (∀ records record order items,
       let w := handleAll env records initialWorld in
       let kitchens := getUniqueKitchens items in
       let new := submitted (spooler w)
                    (slipJobsFrom env order items (length kitchens) 0 kitchens) in
       let w' := (handlePaidOrder env record w).2 in
       id record ∉ printedOrders w →
       fetchOrderDetails (id record) = Some (order, items) →
       autoPrintEnabled (config env) = true →
       forallb snd new = true →
       ((length (printedOrders w) < 200)%nat →
        printedOrders w' = printedOrders w ++ [id record])
       ∧ (∀ oldest rest,
            printedOrders w = oldest :: rest → length (printedOrders w) = 200%nat →
            printedOrders w' = rest ++ [id record])).
Proof.
  split.
  - intros records. apply (handleAll_ledger_ok env records initialWorld).
    split; [constructor|simpl; unfold LEDGER_LIMIT; lia].
  - intros records record order items w kitchens new w' Hnotin Hfetch Hauto Hok.
    assert (Hw : ledger_ok w).
    { apply (handleAll_ledger_ok env records initialWorld).
      split; [constructor|simpl; unfold LEDGER_LIMIT; lia]. }
    destruct Hw as [Hnd Hlen].
    destruct (handlePaidOrder_dispatch env record order items w Hnotin Hfetch Hauto)
      as [_ Hledger].
    fold kitchens new w' in Hledger. rewrite Hok in Hledger.
    rewrite trimLedger_add_fresh in Hledger by done.
    unfold LEDGER_LIMIT in *. split.
    + intros Hlt. by rewrite decide_True in Hledger.
    + intros oldest rest Hl Hfull. rewrite decide_False in Hledger by lia.
      by rewrite Hl in Hledger.
Qed.

(** C6. Update-event trigger qualification: an update record is handed
    to [handlePaidOrder] if and only if the new [payment_status] equals the
    configured trigger value and the old [payment_status] did not already
    equal it; with trigger value "paid", old "pending" and new "paid"
    qualifies while old "paid" and new "paid" does not. *)
Theorem update_trigger_qualification `{Runtime} `{DeviceSink} `{OrderStore}
    (env : Env) (payload_old payload_new : option Order) :
  let trigger := printOnPaymentStatus (config env) in
  (updateQualifies env payload_old payload_new = true
   ↔ payload_new ≫= payment_status = Some trigger
     ∧ payload_old ≫= payment_status ≠ Some trigger)
  ∧ (∀ record,
       payload_new = Some record →
       onUpdate env payload_old payload_new
       = if updateQualifies env payload_old payload_new
         then handlePaidOrder env record else io_ret tt)
  ∧ (payload_new = None → onUpdate env payload_old payload_new = io_ret tt)
  ∧ (trigger = js "paid" →
     ∀ old new,
       payload_old = Some old → payload_new = Some new →
       payment_status new = Some (js "paid") →
       (payment_status old = Some (js "pending") →
        updateQualifies env payload_old payload_new = true)
       ∧ (payment_status old = Some (js "paid") →
          updateQualifies env payload_old payload_new = false)).
Proof.
  intros trigger.
  assert (Hiff : updateQualifies env payload_old payload_new = true
                 ↔ payload_new ≫= payment_status = Some trigger
                   ∧ payload_old ≫= payment_status ≠ Some trigger).
  { unfold updateQualifies, shouldPrint, trigger.
    rewrite andb_true_iff, negb_true_iff, bool_decide_eq_false, bool_decide_eq_true.
    tauto. }
  split_and!.
  - exact Hiff.
  - intros record ->. done.
  - intros ->. done.
  - intros Htrig old new -> -> Hnew. split; intros Hold.
    + apply Hiff.
      change (payment_status new = Some trigger
              ∧ payment_status old ≠ Some trigger).
      rewrite Hnew, Hold, Htrig. split; [done|discriminate].
    + apply not_true_is_false. intros [_ Hne]%Hiff. apply Hne.
      change (payment_status old = Some trigger). by rewrite Hold, Htrig.
Qed.

(* ================================================================== *)
(** * Retry and the ledger *)

Section Retention.
Context `{Runtime} `{DeviceSink} `{OrderStore} (env : Env).

Lemma remembered_step x m record w :
  (m < 199)%nat → remembered x m w →
  remembered x (S m) (handlePaidOrder env record w).2.
Proof.
  intros Hm (Hok & pre & post & Hl & Hpost).
  split; [by apply handlePaidOrder_ledger_ok|].
  destruct Hok as [Hnd Hlen].
  destruct (handlePaidOrder_ledger env record w) as [-> | [-> | [Hnotin ->]]].
  - exists pre, post. split; [done|lia].
  - rewrite trimLedger_within by done. exists pre, post. split; [done|lia].
  - rewrite trimLedger_add_fresh by done. unfold LEDGER_LIMIT in *.
    destruct (decide _) as [Hlt|Hfull].
    + exists pre, (post ++ [id record]).
      rewrite Hl, <- app_assoc, length_app. split; [done|simpl; lia].
    + rewrite Hl, length_app in Hfull, Hlen. cbn [length] in Hfull, Hlen.
      destruct pre as [|p pre']; [cbn [length] in Hfull; lia|].
      exists pre', (post ++ [id record]). rewrite Hl. cbn [app tail].
      rewrite <- app_assoc, length_app. split; [done|simpl; lia].
Qed.

Lemma remembered_run x records :
  ∀ m w, (m + length records ≤ 199)%nat → remembered x m w →
         remembered x (m + length records) (handleAll env records w).
Proof.
  induction records as [|record rest IH]; intros m w Hm Hrem.
  - by rewrite Nat.add_0_r.
  - cbn [length handleAll foldl] in *.
    replace (m + S (length rest))%nat with (S m + length rest)%nat by lia.
    apply IH; [lia|]. apply remembered_step; [lia|done].
Qed.
End Retention.

Section Eviction.
Context `{Runtime} `{DeviceSink} `{OrderStore} (env : Env).



End Eviction.



(* ================================================================== *)
(** * The properties on the sample deployment *)

(** A slip asked for kitchen 3 of the sample order, which has no item for
    it: nothing is sent. *)
Lemma printKitchenSlip_no_items_sample :
  let r := @printKitchenSlip Sample.runtime Sample.acceptAll Sample.env
             (Sample.order (js "a1")) Sample.items (Some 3) 1 1 false
             initialWorld in
  r.1 = true
  ∧ spooler r.2 = spooler initialWorld
  ∧ sentBetween initialWorld r.2 = []
  ∧ printedOrders r.2 = printedOrders initialWorld.
Proof.
  apply (@printKitchenSlip_no_items Sample.runtime Sample.acceptAll Sample.env
           (Sample.order (js "a1")) Sample.items (Some 3) 1 1 false initialWorld).
  unfold Sample.items.
  repeat (apply List.Forall_cons; [discriminate|]). apply List.Forall_nil.
Defined.

(** The first slip of the sample order, paid in cash with the drawer
    enabled, ends with the drawer pulse. *)
Lemma drawer_pulse_first_slip_sample :
  ∃ data : list Z,
    sentBetween initialWorld
      (@printOrder Sample.runtime Sample.acceptAll Sample.env
         (Sample.order (js "a1")) Sample.items initialWorld).2 !! 0%nat
    = Some data
    ∧ CMD.CASH_DRAWER `suffix_of` data.
Proof.
  destruct (@drawer_pulse_first_slip Sample.runtime Sample.acceptAll Sample.env
              (Sample.order (js "a1")) Sample.items 0 (Some 1) initialWorld)
    as (data & Hsent & _ & Hpulse & _); [reflexivity|].
  exists data. split; [exact Hsent|].
  apply Hpulse. split_and!; reflexivity.
Defined.



(** The sample order has three kitchens, printed in the order 1, 2,
    unassigned, whatever the order of its items. *)
Example sample_kitchens :
  getUniqueKitchens Sample.items = [Some 1; Some 2; None]
  ∧ getUniqueKitchens (reverse Sample.items) = [Some 1; Some 2; None].
Proof. split; reflexivity. Qed.

(** The three slips of the sample order: 1 of 3 for kitchen 1 with the
    drawer pulse at its end, 2 of 3 and 3 of 3 without it. *)
Example sample_slips :
  let w := (@printOrder Sample.runtime Sample.acceptAll Sample.env
              (Sample.order (js "a1")) Sample.items initialWorld).2 in
  (λ data, bool_decide (CMD.CASH_DRAWER `suffix_of` data))
    <$> sentBetween initialWorld w
  = [true; false; false]
  ∧ (λ a, a.2) <$> spooler w = [true; true; true].
Proof. vm_compute. split; reflexivity. Qed.

(** The totals of the sample order, written on each of its slips. *)
Example sample_totals :
  let _ := Sample.runtime in
  toFixed2 (allSubtotal Sample.items) = js "325.00"
  ∧ toFixed2 (serviceCharge Sample.items) = js "6.50"
  ∧ toFixed2 (grandTotal Sample.items) = js "331.50".
Proof. vm_compute. repeat split. Qed.

(** With a full ledger, the next order fully dispatched takes the place
    of the oldest one. *)
Example sample_eviction :
  let handle := @handlePaidOrder Sample.runtime Sample.acceptAll
                  Sample.smallStore Sample.env in
  let w := @handleAll Sample.runtime Sample.acceptAll Sample.smallStore
             Sample.env (Sample.record <$> seq 0 200) initialWorld in
  length (printedOrders w) = 200%nat
  ∧ head (printedOrders w) = Some (id (Sample.record 0))
  ∧ printedOrders (handle (Sample.record 200) w).2
    = tail (printedOrders w) ++ [id (Sample.record 200)].
Proof. vm_compute. repeat split. Qed.

(** With the default trigger value, pending to paid qualifies and paid to
    paid does not. *)
Example sample_update_events :
  let pending := mkOrder (js "a1") 101 (js "2026-11-02T08:35:00Z") (js "dine_in")
                   (Some 5) (js "cash") (Some (js "pending")) None None in
  let paid := Sample.order (js "a1") in
  updateQualifies Sample.env (Some pending) (Some paid) = true
  ∧ updateQualifies Sample.env (Some paid) (Some paid) = false
  ∧ updateQualifies Sample.env None (Some paid) = true.
Proof. vm_compute. repeat split. Qed.

(* ================================================================== *)
(** * Column and line layout *)

Lemma str_repeat_char (c : Z) (n : nat) : str_repeat [c] n = replicate n c.
Proof.
  unfold str_repeat. induction n as [|n IH]; [done|].
  cbn [replicate]. rewrite <- IH. done.
Qed.

Lemma land_255_mod (c : Z) : Z.land c 0xFF = c mod 256.
Proof. change 0xFF with (Z.ones 8). by rewrite Z.land_ones by lia. Qed.

Lemma col_length (text : jsstring) (width : nat) (align : Align) :
  length (col text width align) = width.
Proof.
  assert (Hlen : length (take width text) = (width `min` length text)%nat)
    by (rewrite length_take; lia).
  unfold col, substring_to, padStart, padEnd.
  destruct align; rewrite ?length_app, ?length_replicate, Hlen; try lia.
  pose proof (Nat.div_mod_eq (width - width `min` length text) 2).
  pose proof (Nat.mod_upper_bound (width - width `min` length text) 2). lia.
Qed.

(** X1. [col] always returns exactly [width] characters: the text is cut
    to [width] and padded with spaces on the right (left alignment), on the
    left (right alignment) or on both sides (centre), where the right side
    gets the odd space. A text of [width] characters or more is cut to its
    first [width] characters whatever the alignment, so an amount too long
    for its column loses its last digits. *)
Theorem col_layout (text : jsstring) (width : nat) :
  (∀ align, length (col text width align) = width)
  ∧ col text width AlignLeft
    = take width text ++ replicate (width - length text) SPACE
  ∧ col text width AlignRight
    = replicate (width - length text) SPACE ++ take width text
  ∧ (∃ l r : nat,
       col text width AlignCenter
       = replicate l SPACE ++ take width text ++ replicate r SPACE
       ∧ (l ≤ r ≤ l + 1)%nat)
  ∧ ((length text ≤ width)%nat → take width text = text)
  ∧ ((width ≤ length text)%nat →
     ∀ align, col text width align = take width text).
Proof.
  assert (Hlen : length (take width text) = (width `min` length text)%nat)
    by (rewrite length_take; lia).
  split_and!.
  - intros align. unfold col, substring_to, padStart, padEnd.
    destruct align; rewrite ?length_app, ?length_replicate, Hlen.
    + lia.
    + lia.
    + pose proof (Nat.Div0.div_le_upper_bound
                    (width - width `min` length text) 2
                    (width - width `min` length text)) as Hdiv.
      assert ((width - width `min` length text) / 2
              ≤ width - width `min` length text)%nat by (apply Hdiv; lia).
      lia.
  - unfold col, substring_to, padEnd. rewrite Hlen. f_equal. f_equal. lia.
  - unfold col, substring_to, padStart. rewrite Hlen. f_equal. f_equal. lia.
  - unfold col, substring_to. rewrite Hlen.
    set (rem := (width - width `min` length text)%nat).
    exists (rem / 2)%nat, (width - rem / 2 - width `min` length text)%nat.
    split; [done|].
    pose proof (Nat.div_mod_eq rem 2) as Hdm.
    pose proof (Nat.mod_upper_bound rem 2). lia.
  - intros Hle. by apply take_ge.
  - intros Hle align. unfold col, substring_to, padStart, padEnd. rewrite Hlen.
    replace (width - width `min` length text)%nat with 0%nat by lia.
    destruct align; cbn [replicate app Nat.div Nat.divmod fst];
      rewrite ?app_nil_r; try done.
    replace (width - 0 - width `min` length text)%nat with 0%nat by lia.
    by rewrite app_nil_r.
Qed.

(** X2. [leftRight] prints one line: the left text, at least one space,
    the right text. The line is [width] characters long when the two texts
    and one space fit in it; otherwise the texts are kept whole, one space
    apart, and the line is longer than [width]. *)
Theorem leftRight_layout (left right : jsstring) (width : Z) (doc : EscPos) :
  let text := Doc.leftRightText left right width in
  let l := Z.of_nat (length left) in
  let r := Z.of_nat (length right) in
  bytes (Doc.leftRight left right width doc) = bytes doc ++ lineBytes text
  ∧ Z.of_nat (length text) = Z.max width (l + 1 + r)
  ∧ (∃ gap : nat, text = left ++ replicate gap SPACE ++ right ∧ (1 ≤ gap)%nat)
  ∧ (width ≤ l + r → text = left ++ [SPACE] ++ right).
Proof.
  intros text l r. subst text. unfold Doc.leftRightText.
  rewrite str_repeat_char. fold l r. split_and!.
  - unfold Doc.leftRight, Doc.leftRightText, Doc.println, Doc._text, Doc._add,
      lineBytes.
    cbn [bytes]. rewrite str_repeat_char. by rewrite <- app_assoc.
  - rewrite !length_app, length_replicate. lia.
  - eexists. split; [reflexivity|lia].
  - intros Hfit. replace (Z.to_nat (Z.max 1 (width - l - r))) with 1%nat by lia.
    done.
Qed.

(** X3. [createTwoColumnLine] of the first printer module pads to
    [totalWidth] as [leftRight] does, but leaves no space between the two
    texts when they fill the width or exceed it. *)
Theorem createTwoColumnLine_layout (left right : jsstring) (totalWidth : Z) :
  let l := Z.of_nat (length left) in
  let r := Z.of_nat (length right) in
  Z.of_nat (length (createTwoColumnLine left right totalWidth))
  = Z.max totalWidth (l + r)
  ∧ (totalWidth ≤ l + r → createTwoColumnLine left right totalWidth = left ++ right)
  ∧ (l + r < totalWidth →
     createTwoColumnLine left right totalWidth
     = Doc.leftRightText left right totalWidth).
Proof.
  intros l r. unfold createTwoColumnLine, Doc.leftRightText.
  rewrite !str_repeat_char. fold l r. split_and!.
  - rewrite !length_app, length_replicate. lia.
  - intros Hfit. by replace (Z.to_nat (Z.max 0 (totalWidth - l - r))) with 0%nat by lia.
  - intros Hfit. do 3 f_equal. lia.
Qed.

(* ================================================================== *)
(** * What the builder puts in the buffer *)

Lemma extends_refl (d : EscPos) : extends d d.
Proof. exists []. by rewrite app_nil_r. Qed.

Lemma extends_trans (d1 d2 d3 : EscPos) :
  extends d1 d2 → extends d2 d3 → extends d1 d3.
Proof.
  intros (e1 & H1 & Hb1) (e2 & H2 & Hb2). exists (e1 ++ e2). split.
  - by rewrite H2, H1, app_assoc.
  - by apply Forall_app.
Qed.

Lemma extends_add (arr : list Z) (d0 d : EscPos) :
  Forall byte_ok arr → extends d0 d → extends d0 (Doc._add arr d).
Proof.
  intros Harr Hd. eapply extends_trans; [exact Hd|]. by exists arr.
Qed.

Lemma extends_text (str : jsstring) (d0 d : EscPos) :
  extends d0 d → extends d0 (Doc._text str d).
Proof.
  intros Hd. eapply extends_trans; [exact Hd|].
  exists ((λ c, Z.land c 0xFF) <$> str). split; [done|].
  apply Forall_fmap, Forall_true. intros c. unfold compose, byte_ok.
  rewrite land_255_mod. apply Z.mod_pos_bound. lia.
Qed.

(** Closes a goal [extends d0 (f_n (... (f_1 d0)))] for a chain of
    builder calls. *)
Ltac extends_chain :=
  repeat first
    [ assumption
    | apply extends_refl
    | apply extends_text
    | apply extends_add; [compute_done|] ].

Ltac unfold_doc :=
  unfold Doc.leftRight, Doc.drawLine, Doc.println, Doc.init, Doc.alignLeft,
    Doc.alignCenter, Doc.alignRight, Doc.boldOn, Doc.boldOff, Doc.normalSize,
    Doc.cutPartial, Doc.cashDrawer;
  cbn [Doc.feed].

Section Extends.
Context `{Runtime}.

Lemma slipHeader_extends order d0 d :
  extends d0 d → extends d0 (slipHeader order d).
Proof. intros Hd. unfold slipHeader. unfold_doc. extends_chain. Qed.

Lemma brandBlock_extends d0 d : extends d0 d → extends d0 (brandBlock d).
Proof. intros Hd. unfold brandBlock. unfold_doc. extends_chain. Qed.

Lemma kitchenBanner_extends k idx total d0 d :
  extends d0 d → extends d0 (kitchenBanner k idx total d).
Proof.
  intros Hd. unfold kitchenBanner. unfold_doc.
  destruct k, (1 <? total)%nat; extends_chain.
Qed.

Lemma tableBanner_extends order d0 d :
  extends d0 d → extends d0 (tableBanner order d).
Proof.
  intros Hd. unfold tableBanner. unfold_doc.
  destruct (_ && _); extends_chain.
Qed.

Lemma customerBlock_extends order d0 d :
  extends d0 d → extends d0 (customerBlock order d).
Proof.
  intros Hd. unfold customerBlock. unfold_doc.
  destruct (truthy_str (customer_name order)),
    (truthy_str (customer_phone order)); cbn [orb]; extends_chain.
Qed.

Lemma itemsHeader_extends d0 d : extends d0 d → extends d0 (itemsHeader d).
Proof. intros Hd. unfold itemsHeader. unfold_doc. extends_chain. Qed.

Lemma printLineItem_extends item d0 d sub :
  extends d0 d → extends d0 (printLineItem (d, sub) item).1.
Proof.
  intros Hd. unfold printLineItem. unfold_doc.
  destruct (21 <? _)%nat; cbn [fst]; extends_chain.
Qed.

Lemma lineItems_extends kitchenItems d0 d :
  extends d0 d → extends d0 (lineItems kitchenItems d).1.
Proof.
  intros Hd. unfold lineItems.
  assert (Hfold : ∀ acc, extends d0 acc.1 →
            extends d0 (foldl printLineItem acc kitchenItems).1).
  { induction kitchenItems as [|item rest IH]; intros acc Hacc; [done|].
    cbn [foldl]. apply IH. destruct acc as [doc sub].
    by apply printLineItem_extends. }
  specialize (Hfold (d, 0%float) Hd).
  destruct (foldl printLineItem _ _) as [doc sub]. cbn [fst] in *.
  unfold_doc. extends_chain.
Qed.

Lemma kitchenSubtotalBlock_extends k total sub d0 d :
  extends d0 d → extends d0 (kitchenSubtotalBlock k total sub d).
Proof.
  intros Hd. unfold kitchenSubtotalBlock. unfold_doc.
  destruct (1 <? total)%nat; extends_chain.
Qed.

Lemma orderTotals_extends order items d0 d :
  extends d0 d → extends d0 (orderTotals order items d).
Proof. intros Hd. unfold orderTotals. unfold_doc. extends_chain. Qed.

Lemma slipFooter_extends order d0 d :
  extends d0 d → extends d0 (slipFooter order d).
Proof.
  intros Hd. unfold slipFooter. unfold_doc.
  destruct (jsstring_eqb _ _); extends_chain.
Qed.

Lemma cutAndDrawer_extends drawer d0 d :
  extends d0 d → extends d0 (cutAndDrawer drawer d).
Proof.
  intros Hd. unfold cutAndDrawer. unfold_doc. destruct drawer; extends_chain.
Qed.

Lemma buildSlip_extends order items k kitchenItems idx total drawer :
  extends (Doc.new |> Doc.init |> Doc.alignLeft |> Doc.normalSize)
    (buildSlip order items k kitchenItems idx total drawer).
Proof.
  unfold buildSlip, slipContent.
  match goal with
  | |- context [lineItems kitchenItems ?d] =>
      pose proof (lineItems_extends kitchenItems
                    (Doc.new |> Doc.init |> Doc.alignLeft |> Doc.normalSize) d)
        as Hitems;
      destruct (lineItems kitchenItems d) as [doc sub]
  end.
  apply cutAndDrawer_extends, slipFooter_extends, orderTotals_extends,
    kitchenSubtotalBlock_extends, Hitems.
  apply itemsHeader_extends, customerBlock_extends, tableBanner_extends,
    kitchenBanner_extends, brandBlock_extends.
  unfold slipHeader. unfold_doc. extends_chain.
Qed.
End Extends.

Lemma mask_bytes (l : list Z) :
  Forall byte_ok l → (λ b, Z.land b 0xFF) <$> l = l.
Proof.
  induction 1 as [|b bs Hb _ IH]; [done|].
  cbn [fmap list_fmap]. f_equal; [|exact IH].
  rewrite land_255_mod. apply Z.mod_small. exact Hb.
Qed.

(** X4. The buffer of a slip: every value the builder collects fits in
    one byte, so [Buffer.from] stores the values unchanged, and the buffer
    starts with the printer reset, left alignment and normal size. *)
Theorem slip_buffer_wellformed `{Runtime} (order : Order) (items : list OrderItem)
    (k : kitchen) (kitchenItems : list OrderItem) (idx total : nat)
    (drawer : bool) :
  let doc := buildSlip order items k kitchenItems idx total drawer in
  Forall byte_ok (bytes doc)
  ∧ Doc.toBuffer doc = bytes doc
  ∧ ∃ rest : list Z,
      Doc.toBuffer doc
      = CMD.INIT ++ CMD.ALIGN_LEFT ++ CMD.NORMAL_SIZE ++ rest.
Proof.
  intros doc.
  destruct (buildSlip_extends order items k kitchenItems idx total drawer)
    as (ext & Hbytes & Hext).
  fold doc in Hbytes.
  assert (Hall : Forall byte_ok (bytes doc)).
  { rewrite Hbytes. apply Forall_app. split; [compute_done|done]. }
  assert (Hbuf : Doc.toBuffer doc = bytes doc) by by apply mask_bytes.
  split_and!; [done|done|].
  exists ext. rewrite Hbuf, Hbytes. done.
Qed.

(** X5. Text is sent one byte per character, the character code modulo
    256: a rule drawn with a character of code [c] is [width] bytes
    [c mod 256] and a line feed. The rules of a slip are drawn with U+2500,
    which reaches the printer as NUL bytes. *)
Theorem rule_line_bytes (c : Z) (width : nat) (doc : EscPos) :
  bytes (Doc.drawLine [c] width doc)
  = bytes doc ++ replicate width (c mod 256) ++ [LF]
  ∧ bytes (Doc.drawLine BOX_DASH width doc)
    = bytes doc ++ replicate width 0 ++ [LF]
  ∧ bytes (Doc.drawLine (js "-") width doc)
    = bytes doc ++ replicate width 45 ++ [LF].
Proof.
  assert (Hgen : ∀ c', bytes (Doc.drawLine [c'] width doc)
                       = bytes doc ++ replicate width (c' mod 256) ++ [LF]).
  { intros c'. unfold Doc.drawLine, Doc.println, Doc._text, Doc._add.
    cbn [bytes]. rewrite str_repeat_char, fmap_replicate, land_255_mod.
    by rewrite <- app_assoc. }
  split_and!; [apply Hgen|apply (Hgen 0x2500)|apply (Hgen 45)].
Qed.

(** X6. One item of a slip: [printLineItem] appends one bold row of
    exactly 48 characters and adds price times quantity to the kitchen
    subtotal; a name of more than 21 characters is cut in the row and its
    remaining characters follow on a second bold line, a shorter name gets
    no second line. *)
Theorem line_item_layout `{Runtime} (item : OrderItem) (doc : EscPos)
    (kitchenSubtotal : float) :
  let r := printLineItem (doc, kitchenSubtotal) item in
  bytes r.1
  = bytes doc ++ CMD.BOLD_ON ++ lineBytes (itemRow item) ++ CMD.BOLD_OFF
    ++ itemOverflow item
  ∧ r.2 = (kitchenSubtotal + item_price item * Number_of_int (quantity item))%float
  ∧ length (itemRow item) = 48%nat
  ∧ ((length (or_str (item_name item) []) ≤ 21)%nat → itemOverflow item = [])
  ∧ ((21 < length (or_str (item_name item) []))%nat →
     itemOverflow item
     = CMD.BOLD_ON
       ++ lineBytes (js "  " ++ drop 21 (or_str (item_name item) []))
       ++ CMD.BOLD_OFF).
Proof.
  intros r. subst r. split_and!.
  - unfold printLineItem, itemRow, itemOverflow, lineBytes. unfold_doc.
    unfold Doc._text, Doc._add.
    destruct (21 <? _)%nat; cbn [bytes fst];
      rewrite <- ?app_assoc, ?app_nil_r; reflexivity.
  - unfold printLineItem. by destruct (21 <? _)%nat.
  - unfold itemRow. rewrite !length_app.
    by rewrite !col_length.
  - intros Hlen. unfold itemOverflow.
    by rewrite (proj2 (Nat.ltb_ge _ _)) by lia.
  - intros Hlen. unfold itemOverflow, substring_from.
    by rewrite (proj2 (Nat.ltb_lt _ _)) by lia.
Qed.

(* ================================================================== *)
(** * Printer names *)

Lemma strip_leading_quote (s : jsstring) :
  match s with 34 :: r => r | _ => s end
  = if decide (head s = Some 34) then tail s else s.
Proof.
  destruct s as [|c r]; [done|]. cbn [head tail].
  destruct (decide (Some c = Some 34)) as [[= ->]|Hc]; [done|].
  assert (c ≠ 34) by congruence.
  destruct c as [|p|p]; try done.
  repeat (destruct p as [p|p|]; try done).
Qed.

(** X7. [replace(/^"|"$/g, '')] as the printer names use it: a name in
    double quotes loses the two quotes, a name with no quote at either end
    is unchanged, and at most two characters are ever removed. *)
Theorem strip_quotes_spec (s : jsstring) :
  strip_quotes (34 :: s ++ [34]) = s
  ∧ (head s ≠ Some 34 → last s ≠ Some 34 → strip_quotes s = s)
  ∧ (length (strip_quotes s) ≤ length s ≤ length (strip_quotes s) + 2)%nat.
Proof.
  split; [|split].
  - unfold strip_quotes. rewrite last_snoc, bool_decide_eq_true_2 by done.
    rewrite length_app. cbn [length].
    replace (length s + 1 - 1)%nat with (length s) by lia.
    by rewrite take_app_length.
  - intros Hhead Hlast. unfold strip_quotes.
    rewrite strip_leading_quote, decide_False by done.
    by rewrite bool_decide_eq_false_2.
  - unfold strip_quotes.
    rewrite strip_leading_quote.
    set (s1 := if decide (head s = Some 34) then tail s else s).
    assert (Hs1 : (length s1 ≤ length s ≤ length s1 + 1)%nat).
    { subst s1. destruct (decide _); [|lia].
      destruct s as [|c r]; cbn [tail length]; lia. }
    case_bool_decide; [|lia].
    rewrite length_take. lia.
Qed.

(** X8. The printer of a kitchen: the unassigned kitchen prints on the
    default printer, and so does a kitchen whose [KITCHEN_n_PRINTER] is
    missing or empty; a kitchen with a value set prints on that value
    without its quotes. The default printer is [DEFAULT_PRINTER], else
    [PRINTER_NAME], else "80mm Series Printer". *)
Theorem printer_resolution (env : Env) :
  let key := λ n : Z, js "KITCHEN_" ++ String_of_int n ++ js "_PRINTER" in
  getKitchenPrinterName env None = getDefaultPrinterName env
  ∧ (∀ n, env !! key n = None ∨ env !! key n = Some [] →
       getKitchenPrinterName env (Some n) = getDefaultPrinterName env)
  ∧ (∀ n name, env !! key n = Some name → name ≠ [] →
       getKitchenPrinterName env (Some n) = strip_quotes name)
  ∧ (∀ name, env !! js "DEFAULT_PRINTER" = Some name → name ≠ [] →
       getDefaultPrinterName env = strip_quotes name)
  ∧ (∀ name,
       env !! js "DEFAULT_PRINTER" = None ∨ env !! js "DEFAULT_PRINTER" = Some [] →
       env !! js "PRINTER_NAME" = Some name → name ≠ [] →
       getDefaultPrinterName env = strip_quotes name)
  ∧ (env !! js "DEFAULT_PRINTER" = None ∨ env !! js "DEFAULT_PRINTER" = Some [] →
     env !! js "PRINTER_NAME" = None ∨ env !! js "PRINTER_NAME" = Some [] →
     getDefaultPrinterName env = js "80mm Series Printer").
Proof.
  intros key. split_and!.
  - done.
  - intros n Hn. unfold getKitchenPrinterName. fold (key n).
    by destruct Hn as [-> | ->].
  - intros n name Hn Hne. unfold getKitchenPrinterName. fold (key n).
    rewrite Hn. by destruct name.
  - intros name Hd Hne. unfold getDefaultPrinterName. rewrite Hd.
    by destruct name.
  - intros name Hd Hp Hne. unfold getDefaultPrinterName. rewrite Hp.
    destruct Hd as [-> | ->]; by destruct name.
  - intros Hd Hp. unfold getDefaultPrinterName.
    by destruct Hd as [-> | ->], Hp as [-> | ->].
Qed.

Lemma slipJobsFrom_printer `{Runtime} (env : Env) order items total i ks job :
  job ∈ slipJobsFrom env order items total i ks →
  ∃ k, k ∈ ks ∧ job_printer job = spoolerName env k.
Proof.
  revert i. induction ks as [|k ks IH]; intros i Hjob.
  - by apply not_elem_of_nil in Hjob.
  - cbn [slipJobsFrom] in Hjob. apply elem_of_cons in Hjob as [-> | Hjob].
    + exists k. split; [left|done].
    + destruct (IH _ Hjob) as (k' & Hk' & Hp). exists k'. split; [by right|done].
Qed.

(** X9. Without any [KITCHEN_n_PRINTER] in the environment, every slip
    of every order is sent to the default printer. *)
Theorem slips_to_default_printer `{Runtime} `{DeviceSink} (env : Env)
    (order : Order) (items : list OrderItem) (w : World) :
  (∀ n : Z, env !! (js "KITCHEN_" ++ String_of_int n ++ js "_PRINTER") = None) →
  ∀ attempt,
    attempt ∈ drop (length (spooler w)) (spooler (printOrder env order items w).2) →
    job_printer attempt.1 = getDefaultPrinterName env.
Proof.
  intros Hnone attempt Hin.
  destruct (printOrder_spec env order items w) as (_ & Hsp & _).
  rewrite Hsp, drop_app_length in Hin.
  assert (Hjob : attempt.1 ∈ slipJobsFrom env order items
                   (length (getUniqueKitchens items)) 0 (getUniqueKitchens items)).
  { rewrite <- (submitted_jobs (spooler w)). by apply list_elem_of_fmap_2. }
  apply slipJobsFrom_printer in Hjob as (k & _ & ->).
  assert (Hk : getKitchenPrinterName env k = getDefaultPrinterName env).
  { destruct k as [n|]; [|done].
    unfold getKitchenPrinterName. by rewrite Hnone. }
  unfold spoolerName. rewrite Hk. by destruct (getDefaultPrinterName env).
Qed.

(* ================================================================== *)
(** * The date line *)

Lemma pad2_length (n : Z) : 0 ≤ n ≤ 99 → length (pad2 n) = 2%nat.
Proof.
  intros Hn.
  assert (Hall : Forall (λ k, length (pad2 k) = 2%nat) (seqZ 0 100))
    by compute_done.
  rewrite Forall_forall in Hall. apply Hall, elem_of_seqZ. lia.
Qed.

Lemma year_length (n : Z) : 1000 ≤ n ≤ 9999 → length (String_of_int n) = 4%nat.
Proof.
  intros Hn.
  assert (Hall : Forall (λ k, length (String_of_int k) = 4%nat) (seqZ 1000 9000))
    by compute_done.
  rewrite Forall_forall in Hall. apply Hall, elem_of_seqZ. lia.
Qed.

(** X10. The date of a slip: for a valid date with a year of four digits
    [formatDateTime] returns the 19 characters DD-MM-YYYY HH:MM AM or PM,
    with the month counted from 1 and the hour on the 12-hour clock, between
    01 and 12, midnight and noon both shown as 12. *)
Theorem formatDateTime_shape `{Runtime} (dateString : jsstring) (date : DateFields) :
  Date_local dateString = Some date →
  valid_date date →
  let hours := getHours date in
  let h12 := if hours mod 12 =? 0 then 12 else hours mod 12 in
  formatDateTime dateString
  = pad2 (getDate date) ++ js "-" ++ pad2 (getMonth date + 1) ++ js "-"
    ++ String_of_int (getFullYear date) ++ js " " ++ pad2 h12 ++ js ":"
    ++ pad2 (getMinutes date) ++ js " "
    ++ (if 12 <=? hours then js "PM" else js "AM")
  ∧ 1 ≤ h12 ≤ 12
  ∧ (hours = 0 ∨ hours = 12 → h12 = 12)
  ∧ length (formatDateTime dateString) = 19%nat.
Proof.
  intros Hdate (Hd & Hm & Hy & Hh & Hmin) hours h12.
  assert (Hh12 : 1 ≤ h12 ≤ 12).
  { subst h12. pose proof (Z.mod_pos_bound hours 12).
    destruct (hours mod 12 =? 0) eqn:Hz; [lia|]. apply Z.eqb_neq in Hz. lia. }
  assert (Heq : formatDateTime dateString
                = pad2 (getDate date) ++ js "-" ++ pad2 (getMonth date + 1)
                  ++ js "-" ++ String_of_int (getFullYear date) ++ js " "
                  ++ pad2 h12 ++ js ":" ++ pad2 (getMinutes date) ++ js " "
                  ++ (if 12 <=? hours then js "PM" else js "AM")).
  { unfold formatDateTime. rewrite Hdate. fold hours.
    rewrite Z.rem_mod_nonneg by (subst hours; lia). fold h12.
    by rewrite <- ?app_assoc. }
  split_and!; [exact Heq|lia|lia| |].
  - intros [Hz | Hz]; subst h12; rewrite Hz; done.
  - rewrite Heq, !length_app, !pad2_length, year_length by lia.
    by destruct (12 <=? hours).
Qed.

(** The clock of the sample runtime reads 14:05: the slip shows 02:05 PM. *)
Lemma formatDateTime_sample :
  @formatDateTime Sample.runtime (js "2026-11-02T08:35:00Z")
  = js "02-11-2026 02:05 PM"
  ∧ length (@formatDateTime Sample.runtime (js "2026-11-02T08:35:00Z")) = 19%nat.
Proof.
  destruct (@formatDateTime_shape Sample.runtime (js "2026-11-02T08:35:00Z")
              (mkDateFields 2 10 2026 14 5)) as (Heq & _ & _ & Hlen).
  - reflexivity.
  - unfold valid_date. cbn. lia.
  - split; [|exact Hlen]. rewrite Heq. reflexivity.
Defined.

(* ================================================================== *)
(** * Handling events *)

Lemma elem_of_trimLedger (x : jsstring) (ledger : list jsstring) :
  x ∈ trimLedger ledger → x ∈ ledger.
Proof.
  unfold trimLedger, JSSet.first, JSSet.delete.
  destruct (_ <? _)%nat; [|done]. destruct (head ledger); [|done].
  by intros [_ ?]%list_elem_of_filter.
Qed.

Section Events.
Context `{Runtime} `{DeviceSink} `{OrderStore} (env : Env).

(** One handle call: the spooler history only grows, and the only id
    that can enter the ledger is the id handled, after a fetch that
    succeeded and with auto-print enabled. *)
Lemma handlePaidOrder_step record w :
  let w' := (handlePaidOrder env record w).2 in
  spooler w `prefix_of` spooler w'
  ∧ ∀ x, x ∈ printedOrders w' →
      x ∈ printedOrders w
      ∨ (x = id record ∧ is_Some (fetchOrderDetails x)
         ∧ autoPrintEnabled (config env) = true).
Proof.
  destruct (decide (id record ∈ printedOrders w)) as [Hin|Hnotin].
  { rewrite handlePaidOrder_skipped by done. cbn [snd spooler printedOrders].
    split; [done|]. by left. }
  destruct (fetchOrderDetails (id record)) as [[order items]|] eqn:Hfetch.
  2:{ destruct (handlePaidOrder_not_printed env record w Hnotin) as [Hl Hs];
        [by left|].
      cbv zeta. rewrite Hl, Hs. split; [done|]. by left. }
  destruct (autoPrintEnabled (config env)) eqn:Hauto.
  2:{ destruct (handlePaidOrder_not_printed env record w Hnotin) as [Hl Hs];
        [by right|].
      cbv zeta. rewrite Hl, Hs. split; [done|]. by left. }
  destruct (handlePaidOrder_dispatch env record order items w Hnotin Hfetch Hauto)
    as [Hs Hl].
  cbv zeta. rewrite Hs, Hl. split; [by eexists|].
  intros x Hx%elem_of_trimLedger. destruct (forallb _ _); [|by left].
  apply JSSetFacts.elem_of_add in Hx as [-> | Hx]; [|by left].
  right. by rewrite Hfetch.
Qed.

(** What a handle call does to ledger and spooler depends on ledger and
    spooler only, not on the console. *)
Lemma handlePaidOrder_same_state record w1 w2 :
  same_state w1 w2 →
  same_state (handlePaidOrder env record w1).2 (handlePaidOrder env record w2).2.
Proof.
  intros [Hl Hs]. unfold same_state.
  destruct (decide (id record ∈ printedOrders w1)) as [Hin|Hnotin].
  { rewrite !handlePaidOrder_skipped by (done || by rewrite <- Hl). done. }
  assert (Hnotin2 : id record ∉ printedOrders w2) by by rewrite <- Hl.
  destruct (fetchOrderDetails (id record)) as [[order items]|] eqn:Hfetch.
  2:{ destruct (handlePaidOrder_not_printed env record w1 Hnotin) as [-> ->];
        [by left|].
      destruct (handlePaidOrder_not_printed env record w2 Hnotin2) as [-> ->];
        [by left|]. done. }
  destruct (autoPrintEnabled (config env)) eqn:Hauto.
  2:{ destruct (handlePaidOrder_not_printed env record w1 Hnotin) as [-> ->];
        [by right|].
      destruct (handlePaidOrder_not_printed env record w2 Hnotin2) as [-> ->];
        [by right|]. done. }
  destruct (handlePaidOrder_dispatch env record order items w1 Hnotin Hfetch Hauto)
    as [-> ->].
  destruct (handlePaidOrder_dispatch env record order items w2 Hnotin2 Hfetch Hauto)
    as [-> ->].
  by rewrite Hl, Hs.
Qed.

Lemma pollOrders_same_state orders w1 w2 :
  same_state w1 w2 →
  same_state (pollOrders env orders w1).2 (handleAll env orders w2).
Proof.
  revert w1 w2. induction orders as [|order rest IH]; intros w1 w2 Hsame; [done|].
  cbn [pollOrders handleAll foldl]. unfold io_bind at 1.
  unfold JSSet.has. case_bool_decide as Hin; cbn [negb].
  - cbn [io_ret].
    apply (IH w1 (handlePaidOrder env order w2).2).
    destruct Hsame as [Hl Hs].
    rewrite handlePaidOrder_skipped by by rewrite <- Hl. done.
  - pose proof (handlePaidOrder_same_state order w1 w2 Hsame) as Hstep.
    destruct (handlePaidOrder env order w1) as [[] w1'].
    by apply IH.
Qed.
End Events.

(** X11. A handle call that cannot print, because the order details are
    not fetched or because auto-print is disabled, sends nothing to the
    spooler and leaves the ledger as it is, so that a later event for the
    order is handled again. *)
Theorem handle_without_print `{Runtime} `{DeviceSink} `{OrderStore} (env : Env)
    (record : Order) (w : World) :
  fetchOrderDetails (id record) = None ∨ autoPrintEnabled (config env) = false →
  let w' := (handlePaidOrder env record w).2 in
  spooler w' = spooler w ∧ printedOrders w' = printedOrders w.
Proof.
  intros Hcase. cbv zeta.
  destruct (decide (id record ∈ printedOrders w)) as [Hin|Hnotin].
  - by rewrite handlePaidOrder_skipped.
  - by destruct (handlePaidOrder_not_printed env record w Hnotin Hcase) as [-> ->].
Qed.

(** Auto-print is not enabled in the quiet deployment: nothing is printed. *)
Lemma handle_without_print_sample :
  let w' := (@handlePaidOrder Sample.runtime Sample.acceptAll Sample.store
               Quiet.env (Sample.record 0) initialWorld).2 in
  spooler w' = spooler initialWorld ∧ printedOrders w' = printedOrders initialWorld.
Proof.
  apply (@handle_without_print Sample.runtime Sample.acceptAll Sample.store
           Quiet.env (Sample.record 0) initialWorld).
  right. reflexivity.
Defined.

(** X12. An order without items: the handle call sends nothing to the
    spooler, counts as fully printed and enters the ledger, and the next
    handle call for the order is skipped. *)
Theorem empty_order_marked_printed `{Runtime} `{DeviceSink} `{OrderStore}
    (env : Env) (record order : Order) (w : World) :
  NoDup (printedOrders w) →
  (length (printedOrders w) ≤ 200)%nat →
  id record ∉ printedOrders w →
  fetchOrderDetails (id record) = Some (order, []) →
  autoPrintEnabled (config env) = true →
  let w' := (handlePaidOrder env record w).2 in
  spooler w' = spooler w
  ∧ id record ∈ printedOrders w'
  ∧ spooler (handlePaidOrder env record w').2 = spooler w.
Proof.
  intros Hnd Hlen Hnotin Hfetch Hauto w'.
  destruct (handlePaidOrder_dispatch env record order [] w Hnotin Hfetch Hauto)
    as [Hs Hl].
  fold w' in Hs, Hl. cbn in Hs, Hl. rewrite app_nil_r in Hs.
  rewrite trimLedger_add_fresh in Hl by done.
  assert (Hin : id record ∈ printedOrders w').
  { rewrite Hl. destruct (decide _); apply elem_of_app; right; left. }
  split_and!; [done|done|].
  by rewrite handlePaidOrder_skipped.
Qed.

Lemma empty_order_marked_printed_sample :
  let handle := @handlePaidOrder Sample.runtime Sample.acceptAll
                  Quiet.noItemsStore Sample.env (Sample.record 0) in
  let w' := (handle initialWorld).2 in
  spooler w' = spooler initialWorld
  ∧ id (Sample.record 0) ∈ printedOrders w'
  ∧ spooler (handle w').2 = spooler initialWorld.
Proof.
  apply (@empty_order_marked_printed Sample.runtime Sample.acceptAll
           Quiet.noItemsStore Sample.env (Sample.record 0) (Sample.record 0)
           initialWorld).
  - constructor.
  - simpl. lia.
  - apply not_elem_of_nil.
  - reflexivity.
  - reflexivity.
Defined.

(** X13. Over any sequence of handle calls the spooler history only
    grows, and an id is in the ledger only if it was in it before or a
    handled record carries it, its details were fetched and auto-print is
    enabled. *)
Theorem ledger_provenance `{Runtime} `{DeviceSink} `{OrderStore} (env : Env)
    (records : list Order) (w : World) :
  let w' := handleAll env records w in
  spooler w `prefix_of` spooler w'
  ∧ ∀ x, x ∈ printedOrders w' →
      x ∈ printedOrders w
      ∨ (∃ record, record ∈ records ∧ id record = x
                   ∧ is_Some (fetchOrderDetails x)
                   ∧ autoPrintEnabled (config env) = true).
Proof.
  revert w. induction records as [|record rest IH]; intros w.
  - split; [done|]. intros x Hx. by left.
  - cbn [handleAll foldl].
    destruct (handlePaidOrder_step env record w) as [Hs Hl].
    destruct (IH (handlePaidOrder env record w).2) as [IHs IHl].
    split; [by etrans|].
    intros x Hx. destruct (IHl x Hx) as [Hx1 | (r & Hr & Hid & Hf & Ha)].
    + destruct (Hl x Hx1) as [?| (-> & Hf & Ha)]; [by left|].
      right. exists record. split_and!; try done. left.
    + right. exists r. split_and!; try done. by right.
Qed.

(** X14. Events that do not qualify have no effect at all: an insert
    whose [payment_status] is not the trigger value, an update whose new
    status is not the trigger value or whose old status already was, and an
    event without a new record leave the world as it is. *)
Theorem nonqualifying_events_no_effect `{Runtime} `{DeviceSink} `{OrderStore}
    (env : Env) (payload_old payload_new : option Order) (w : World) :
  let trigger := printOnPaymentStatus (config env) in
  (payload_new ≫= payment_status ≠ Some trigger →
   onInsert env payload_new w = (tt, w)
   ∧ onUpdate env payload_old payload_new w = (tt, w))
  ∧ (payload_old ≫= payment_status = Some trigger →
     onUpdate env payload_old payload_new w = (tt, w)).
Proof.
  intros trigger. split.
  - intros Hnew. unfold onInsert, onUpdate, updateQualifies, shouldPrint.
    fold trigger. destruct payload_new as [record|]; [|done].
    rewrite (bool_decide_eq_false_2 _ Hnew), andb_false_r. done.
  - intros Hold. unfold onUpdate, updateQualifies. fold trigger.
    destruct payload_new as [record|]; [|done].
    by rewrite (bool_decide_eq_true_2 _ Hold).
Qed.

(** X15. Polling: the loop over the orders a poll returns leaves the
    ledger and the spooler history as handling every one of these orders in
    turn does; the test the loop makes before each call saves only the
    console line of a skipped order. *)
Theorem poll_as_handleAll `{Runtime} `{DeviceSink} `{OrderStore} (env : Env)
    (orders : list Order) (w : World) :
  printedOrders (pollOrders env orders w).2 = printedOrders (handleAll env orders w)
  ∧ spooler (pollOrders env orders w).2 = spooler (handleAll env orders w).
Proof. by apply pollOrders_same_state. Qed.

Lemma NoDup_all_equal {A} (k : A) (l : list A) :
  NoDup l → (∀ x, x ∈ l ↔ x = k) → l = [k].
Proof.
  intros Hnd Hl. destruct l as [|a l].
  - exfalso. by apply (not_elem_of_nil k), Hl.
  - assert (a = k) as -> by (apply Hl; left).
    destruct l as [|b l]; [done|]. exfalso.
    assert (b = k) as -> by (apply Hl; right; left).
    apply NoDup_cons in Hnd as [Hk _]. apply Hk. left.
Qed.

Lemma submitted_length `{DeviceSink} sp jobs :
  length (submitted sp jobs) = length jobs.
Proof. rewrite <- (submitted_jobs sp jobs) at 2. by rewrite length_fmap. Qed.

(** X16. An order whose items all have the same kitchen key has one
    partition, which holds every item in the input order: one slip is
    printed, with all the items. *)
Theorem single_kitchen_order `{Runtime} `{DeviceSink} (env : Env) (order : Order)
    (items : list OrderItem) (k : kitchen) (w : World) :
  items ≠ [] →
  Forall (λ i, kitchenOf i = k) items →
  getUniqueKitchens items = [k]
  ∧ kitchenItemsOf k items = items
  ∧ length (spooler (printOrder env order items w).2) = S (length (spooler w)).
Proof.
  intros Hne Hall. rewrite Forall_forall in Hall.
  assert (Hks : getUniqueKitchens items = [k]).
  { apply NoDup_all_equal; [apply NoDup_getUniqueKitchens|].
    intros k'. rewrite elem_of_getUniqueKitchens. split.
    - intros (i & Hi & <-). by apply Hall.
    - intros ->. destruct items as [|i rest]; [done|].
      exists i. split; [left|apply Hall; left]. }
  split_and!.
  - exact Hks.
  - apply filter_all. intros i Hi. by apply inKitchen_spec, Hall.
  - destruct (printOrder_spec env order items w) as (_ & Hsp & _).
    rewrite Hsp, length_app, submitted_length, slipJobsFrom_length, Hks.
    simpl. lia.
Qed.

Lemma single_kitchen_order_sample :
  let items := [mkItem (Some (js "Tea")) 1 10.00%float KNull;
                mkItem None 2 12.50%float KUndefined] in
  getUniqueKitchens items = [None]
  ∧ kitchenItemsOf None items = items
  ∧ length (spooler (@printOrder Sample.runtime Sample.acceptAll Sample.env
                       (Sample.record 0) items initialWorld).2)
    = S (length (spooler initialWorld)).
Proof.
  apply (@single_kitchen_order Sample.runtime Sample.acceptAll Sample.env).
  - discriminate.
  - repeat (apply List.Forall_cons; [reflexivity|]). apply List.Forall_nil.
Defined.

(** No kitchen printer is configured in the sample environment. *)
Lemma slips_to_default_printer_sample :
  Forall (λ attempt, job_printer attempt.1 = getDefaultPrinterName Sample.env)
    (drop (length (spooler initialWorld))
       (spooler (@printOrder Sample.runtime Sample.acceptAll Sample.env
                   (Sample.record 0) Sample.items initialWorld).2)).
Proof.
  apply Forall_forall.
  apply (@slips_to_default_printer Sample.runtime Sample.acceptAll Sample.env).
  intros n. unfold Sample.env.
  rewrite !lookup_insert_ne by discriminate. apply lookup_empty.
Defined.

(* ================================================================== *)
(** * The rows of a slip, old status missing, and how long the ledger
      remembers *)

Lemma printLineItem_bytes `{Runtime} (item : OrderItem) (acc : EscPos * float) :
  bytes (printLineItem acc item).1 = bytes acc.1 ++ itemBytes item
  ∧ (printLineItem acc item).2
    = (acc.2 + item_price item * Number_of_int (quantity item))%float.
Proof.
  destruct acc as [doc sub]. split.
  - unfold printLineItem, itemBytes, itemRow, itemOverflow, lineBytes.
    unfold_doc. unfold Doc._text, Doc._add.
    destruct (21 <? _)%nat; cbn [bytes fst];
      rewrite <- ?app_assoc, ?app_nil_r; reflexivity.
  - unfold printLineItem. by destruct (21 <? _)%nat.
Qed.

(** [lineItems] appends the rows of the items it is given, in the order
    of the list, then one line feed, and returns the sum of price times
    quantity over these items. *)
Lemma lineItems_bytes `{Runtime} (kitchenItems : list OrderItem) (doc : EscPos) :
  let r := lineItems kitchenItems doc in
  bytes r.1 = bytes doc ++ mjoin (itemBytes <$> kitchenItems) ++ CMD.LINE_FEED
  ∧ r.2 = foldl (λ sum i, (sum + item_price i * Number_of_int (quantity i))%float)
            0%float kitchenItems
  ∧ (kitchenItems = [] → bytes r.1 = bytes doc ++ CMD.LINE_FEED ∧ r.2 = 0%float).
Proof.
  assert (Hfold : ∀ acc,
            bytes (foldl printLineItem acc kitchenItems).1
            = bytes acc.1 ++ mjoin (itemBytes <$> kitchenItems)
            ∧ (foldl printLineItem acc kitchenItems).2
              = foldl (λ sum i, (sum + item_price i * Number_of_int (quantity i))%float)
                  acc.2 kitchenItems).
  { induction kitchenItems as [|item rest IH]; intros acc.
    - cbn. by rewrite app_nil_r.
    - cbn [foldl fmap list_fmap mjoin list_join].
      destruct (IH (printLineItem acc item)) as [IHb IHs].
      destruct (printLineItem_bytes item acc) as [Hb Hs].
      rewrite IHb, IHs, Hb, Hs. by rewrite <- app_assoc. }
  intros r. subst r. unfold lineItems.
  destruct (Hfold (doc, 0%float)) as [Hb Hs]. cbn [fst snd] in Hb, Hs.
  destruct (foldl printLineItem _ _) as [doc' sub']. cbn [fst snd] in *.
  assert (Hbytes : bytes (Doc.feed 1 doc')
                   = bytes doc ++ mjoin (itemBytes <$> kitchenItems)
                     ++ CMD.LINE_FEED).
  { cbn [Doc.feed]. unfold Doc._add. cbn [bytes]. by rewrite Hb, <- app_assoc. }
  split_and!; [done|done|].
  intros ->. by rewrite Hbytes, Hs.
Qed.

Lemma kitchenSubtotalBlock_bytes `{Runtime} k total sub doc :
  bytes (kitchenSubtotalBlock k total sub doc)
  = bytes doc ++ bytes (kitchenSubtotalBlock k total sub Doc.new).
Proof.
  unfold kitchenSubtotalBlock, Doc.leftRight, Doc.drawLine, Doc.println,
    Doc.alignLeft, Doc._text, Doc.new.
  destruct (1 <? total)%nat; cbn [bytes Doc.feed Doc._add app];
    by rewrite <- ?app_assoc, ?app_nil_r.
Qed.

Lemma cutAndDrawer_bytes drawer doc :
  bytes (cutAndDrawer drawer doc)
  = bytes doc ++ bytes (cutAndDrawer drawer Doc.new).
Proof.
  unfold cutAndDrawer, Doc.cutPartial, Doc.cashDrawer, Doc.new.
  destruct drawer; cbn [bytes Doc._add app]; by rewrite <- ?app_assoc.
Qed.

Lemma buildSlip_toBuffer `{Runtime} order items k kitchenItems idx total drawer :
  Doc.toBuffer (buildSlip order items k kitchenItems idx total drawer)
  = bytes (buildSlip order items k kitchenItems idx total drawer).
Proof.
  destruct (buildSlip_extends order items k kitchenItems idx total drawer)
    as (ext & Hbytes & Hext).
  apply mask_bytes. rewrite Hbytes.
  apply Forall_app. split; [compute_done|done].
Qed.

(** X17. The item rows of a slip: the buffer [printKitchenSlip] sends
    for a kitchen is the head of the slip, then the rows of the items
    of that kitchen and of no other item, one after the other in the
    order of the order's item list, then one line feed and the rest of
    the slip, in which the kitchen subtotal is the sum of price times
    quantity over the items of that kitchen alone (the totals after it are
    over all items); for a kitchen without items nothing is sent. *)
Theorem line_items_rows `{Runtime} `{DeviceSink} (env : Env) (order : Order)
    (items : list OrderItem) (k : kitchen) (idx total : nat) (drawer : bool)
    (w : World) :
  let kitchenItems := kitchenItemsOf k items in
  let head :=
    Doc.new |> Doc.init |> slipHeader order |> brandBlock
            |> kitchenBanner k idx total |> tableBanner order
            |> customerBlock order |> itemsHeader in
  let kitchenSubtotal :=
    foldl (λ sum i, (sum + item_price i * Number_of_int (quantity i))%float)
      0%float kitchenItems in
  let rest :=
    Doc.new |> kitchenSubtotalBlock k total kitchenSubtotal
            |> orderTotals order items |> slipFooter order
            |> cutAndDrawer drawer in
  sentBetween w (printKitchenSlip env order items k idx total drawer w).2
  = match kitchenItems with
    | [] => []
    | _ :: _ =>
        [bytes head ++ mjoin (itemBytes <$> kitchenItems) ++ CMD.LINE_FEED
         ++ bytes rest]
    end.
Proof.
  cbv zeta. rewrite printKitchenSlip_sent. unfold slipBytes.
  generalize (kitchenItemsOf k items) as kitchenItems. intros kitchenItems.
  destruct kitchenItems as [|item kitchenItems]; [done|].
  generalize (item :: kitchenItems) as kept. clear item kitchenItems. intros kept.
  f_equal. rewrite buildSlip_toBuffer. unfold buildSlip, slipContent.
  match goal with
  | |- context [lineItems kept ?d] =>
      destruct (lineItems_bytes kept d) as (Hrows & Hsum & _);
      destruct (lineItems kept d) as [doc sub]
  end.
  cbn [fst snd] in Hrows, Hsum. subst sub.
  rewrite cutAndDrawer_bytes, slipFooter_bytes, orderTotals_bytes,
    kitchenSubtotalBlock_bytes, Hrows.
  rewrite (cutAndDrawer_bytes _ (slipFooter _ _)),
    (slipFooter_bytes _ (orderTotals _ _ _)),
    (orderTotals_bytes _ _ (kitchenSubtotalBlock _ _ _ _)).
  by rewrite <- !app_assoc.
Qed.

(** X18. An update event whose old record is absent or carries no
    [payment_status] qualifies whenever the new status is the trigger
    value: the callback then hands the new record to [handlePaidOrder],
    where only the ledger keeps an order already printed from printing
    again. *)
Theorem update_without_old_status `{Runtime} `{DeviceSink} `{OrderStore}
    (env : Env) (payload_old : option Order) (record : Order) (w : World) :
  payload_old ≫= payment_status = None →
  payment_status record = Some (printOnPaymentStatus (config env)) →
  updateQualifies env payload_old (Some record) = true
  ∧ onUpdate env payload_old (Some record) w = handlePaidOrder env record w
  ∧ (id record ∈ printedOrders w →
     spooler (onUpdate env payload_old (Some record) w).2 = spooler w).
Proof.
  intros Hold Hnew.
  assert (Hq : updateQualifies env payload_old (Some record) = true).
  { unfold updateQualifies, shouldPrint. rewrite Hold.
    rewrite bool_decide_eq_false_2 by done.
    by rewrite bool_decide_eq_true_2. }
  assert (Hu : onUpdate env payload_old (Some record) w
               = handlePaidOrder env record w)
    by (unfold onUpdate; by rewrite Hq).
  split_and!; [done|done|].
  intros Hin. by rewrite Hu, handlePaidOrder_skipped.
Qed.

(** An update that carries only the key of the old row, for a paid order. *)
Lemma update_without_old_status_sample :
  let old := mkOrder (js "0") 101 [] [] None [] None None None in
  updateQualifies Sample.env (Some old) (Some (Sample.record 0)) = true
  ∧ @onUpdate Sample.runtime Sample.acceptAll Sample.store Sample.env
      (Some old) (Some (Sample.record 0)) initialWorld
    = @handlePaidOrder Sample.runtime Sample.acceptAll Sample.store Sample.env
        (Sample.record 0) initialWorld
  ∧ (id (Sample.record 0) ∈ printedOrders initialWorld →
     spooler (@onUpdate Sample.runtime Sample.acceptAll Sample.store Sample.env
                (Some old) (Some (Sample.record 0)) initialWorld).2
     = spooler initialWorld).
Proof.
  apply (@update_without_old_status Sample.runtime Sample.acceptAll Sample.store
           Sample.env); reflexivity.
Defined.


(** X19. How long the ledger remembers: an order that has just entered
    the ledger, as its newest entry, is still in it after any 199 further
    handle calls or fewer, whatever they handle, and a handle call for the
    order is then skipped. *)
Theorem ledger_retention `{Runtime} `{DeviceSink} `{OrderStore} (env : Env)
    (record : Order) (records : list Order) (w : World) :
  NoDup (printedOrders w) →
  (length (printedOrders w) ≤ 200)%nat →
  last (printedOrders w) = Some (id record) →
  (length records ≤ 199)%nat →
  let w' := handleAll env records w in
  id record ∈ printedOrders w'
  ∧ spooler (handlePaidOrder env record w').2 = spooler w'
  ∧ printedOrders (handlePaidOrder env record w').2 = printedOrders w'.
Proof.
  intros Hnd Hlen Hlast Hrecords w'.
  assert (Hrem : remembered (id record) 0 w).
  { split; [done|]. apply last_Some in Hlast as [pre Hpre].
    exists pre, []. by rewrite Hpre. }
  destruct (remembered_run env (id record) records 0 w) as (_ & pre & post & Hl & _);
    [simpl; lia|done|].
  fold w' in Hl.
  assert (Hin : id record ∈ printedOrders w').
  { rewrite Hl. apply elem_of_app. right. left. }
  by rewrite handlePaidOrder_skipped.
Qed.

(** Order 0 is printed, then orders 1 to 199 are: order 0 is still
    remembered. *)
Lemma ledger_retention_sample :
  let handle := @handlePaidOrder Sample.runtime Sample.acceptAll
                  Sample.smallStore Sample.env in
  let w1 := (handle (Sample.record 0) initialWorld).2 in
  let w' := @handleAll Sample.runtime Sample.acceptAll Sample.smallStore
              Sample.env (Sample.record <$> seq 1 199) w1 in
  id (Sample.record 0) ∈ printedOrders w'
  ∧ spooler (handle (Sample.record 0) w').2 = spooler w'
  ∧ printedOrders (handle (Sample.record 0) w').2 = printedOrders w'.
Proof.
  apply (@ledger_retention Sample.runtime Sample.acceptAll Sample.smallStore
           Sample.env (Sample.record 0) (Sample.record <$> seq 1 199)).
  - vm_compute. apply NoDup_singleton.
  - vm_compute. lia.
  - vm_compute. reflexivity.
  - rewrite length_fmap, length_seq. lia.
Defined.

(* ================================================================== *)
(** * The printer test *)

Lemma testPage_extends `{Runtime} (now name : jsstring) :
  extends (Doc.new |> Doc.init) (testPage now name).
Proof. unfold testPage. unfold_doc. extends_chain. Qed.

(** X20. A printer test submits exactly one job, to the printer named or
    to the default printer when no name or an empty one is given, returns
    the spooler's answer and does not touch the ledger; the page starts
    with the printer reset and ends with the cut, with no drawer pulse
    after it. *)
Theorem printer_test `{Runtime} `{DeviceSink} (env : Env) (now : jsstring)
    (printerName : option jsstring) (w : World) :
  let r := testPrinter env now printerName w in
  let name := or_str printerName (getDefaultPrinterName env) in
  let job := mkJob (Doc.toBuffer (testPage now name)) name in
  spooler r.2 = spooler w ++ [(job, r.1)]
  ∧ r.1 = printDirect (spooler w) job
  ∧ printedOrders r.2 = printedOrders w
  ∧ (printerName = None ∨ printerName = Some [] → name = getDefaultPrinterName env)
  ∧ Forall byte_ok (job_data job)
  ∧ CMD.INIT `prefix_of` job_data job
  ∧ CMD.CUT_PARTIAL `suffix_of` job_data job
  ∧ ¬ CMD.CASH_DRAWER `suffix_of` job_data job.
Proof.
  intros r name job.
  assert (Hname : match name with [] => getDefaultPrinterName env | _ => name end
                  = name).
  { subst name. destruct printerName as [[|c s]|]; cbn [or_str]; try done;
      by destruct (getDefaultPrinterName env). }
  assert (Hr : r = (printDirect (spooler w) job,
                    mkWorld (printedOrders w)
                      (spooler w ++ [(job, printDirect (spooler w) job)])
                      (console w ++ if printDirect (spooler w) job
                                    then [LogJobQueued name] else []))).
  { subst r. unfold testPrinter, sendToPrinter. fold name. rewrite Hname.
    fold job. destruct (printDirect (spooler w) job);
      cbv [io_bind console_log io_ret]; cbn [printedOrders spooler console];
      by rewrite ?app_nil_r. }
  destruct (testPage_extends now name) as (ext & Hbytes & Hext).
  assert (Hall : Forall byte_ok (bytes (testPage now name))).
  { rewrite Hbytes. apply Forall_app. split; [compute_done|done]. }
  assert (Hdata : job_data job = bytes (testPage now name))
    by (by apply mask_bytes).
  assert (Hcut : ∃ content, job_data job = content ++ CMD.CUT_PARTIAL).
  { rewrite Hdata. unfold testPage, Doc.cutPartial. unfold Doc._add at 1.
    cbn [bytes]. by eexists. }
  rewrite Hr. cbn [fst snd spooler printedOrders]. split_and!; try done.
  - intros [-> | ->]; done.
  - by rewrite Hdata.
  - rewrite Hdata, Hbytes. by exists ext.
  - destruct Hcut as [content ->]. apply cut_not_drawer.
Qed.

(* ================================================================== *)
(** * The first version of the handler *)

Lemma copiesTrim_add_fresh (x : jsstring) (ledger : list jsstring) :
  NoDup ledger → (length ledger ≤ COPIES_LEDGER_LIMIT)%nat → x ∉ ledger →
  copiesTrim (JSSet.add x ledger)
  = if decide (length ledger < COPIES_LEDGER_LIMIT)%nat then ledger ++ [x]
    else tail ledger ++ [x].
Proof.
  intros Hnd Hlen Hx. rewrite JSSetFacts.add_fresh by done.
  unfold copiesTrim, JSSet.size. rewrite length_app. cbn [length].
  destruct (decide _) as [Hlt|Hge].
  - by rewrite (proj2 (Nat.ltb_ge _ _)) by lia.
  - rewrite (proj2 (Nat.ltb_lt _ _)) by lia.
    destruct ledger as [|oldest rest];
      [unfold COPIES_LEDGER_LIMIT in Hge; simpl in Hge; lia|].
    cbn [app head tail]. apply JSSetFacts.delete_head.
    rewrite app_comm_cons. apply NoDup_app. split_and!; [done| |apply NoDup_singleton].
    intros y Hy ->%list_elem_of_singleton. done.
Qed.

Section FirstVersionFacts.
Context `{CopyPrinter} `{OrderStore} (cfg : CopiesConfig).

Lemma printCopies_loop_spec order items (n : nat) :
  ∀ copy attempts,
    ∃ new,
      printCopies_loop cfg order items copy n attempts = attempts ++ new
      ∧ ca_copy <$> new = seqZ copy (Z.of_nat n)
      ∧ Forall (λ a, ca_order a = order ∧ ca_items a = items
                     ∧ ca_total a = printCopies cfg) new.
Proof.
  induction n as [|n IH]; intros copy attempts.
  - exists []. by rewrite app_nil_r.
  - cbn [printCopies_loop].
    destruct (IH (copy + 1) (attempts ++
                [mkCopyAttempt order items copy (printCopies cfg)
                   (printCopy attempts order items copy (printCopies cfg))]))
      as (new & -> & Hcopies & Hall).
    eexists (_ :: new). split_and!.
    + by rewrite <- app_assoc.
    + cbn [fmap list_fmap ca_copy]. rewrite Hcopies.
      rewrite (seqZ_cons copy (Z.of_nat (S n))) by lia.
      do 2 f_equal; lia.
    + by constructor.
Qed.

(** The first ledger holds no duplicates and never more than 100 entries. *)
Lemma handleNewOrder_ledger_ok payload_new w :
  NoDup (cw_printedOrders w) →
  (length (cw_printedOrders w) ≤ COPIES_LEDGER_LIMIT)%nat →
  NoDup (cw_printedOrders (handleNewOrder cfg payload_new w))
  ∧ (length (cw_printedOrders (handleNewOrder cfg payload_new w))
     ≤ COPIES_LEDGER_LIMIT)%nat.
Proof.
  intros Hnd Hlen. unfold handleNewOrder.
  destruct (negb _); [done|].
  destruct payload_new as [record|]; [|done].
  unfold JSSet.has. case_bool_decide as Hin; [done|].
  destruct (fetchOrderDetails _) as [[order items]|]; [|done].
  destruct (cc_autoPrintEnabled cfg); [|done].
  cbn [cw_printedOrders]. rewrite copiesTrim_add_fresh by done.
  unfold COPIES_LEDGER_LIMIT in *. destruct (decide _) as [Hlt|Hfull].
  - split.
    + apply NoDup_app. split_and!; [done| |apply NoDup_singleton].
      intros y Hy ->%list_elem_of_singleton. done.
    + rewrite length_app. simpl. lia.
  - destruct (cw_printedOrders w) as [|oldest rest]; [simpl in Hfull; lia|].
    cbn [tail length] in *. apply NoDup_cons in Hnd as [Holdest Hrest].
    split.
    + apply NoDup_app. split_and!; [done| |apply NoDup_singleton].
      intros y Hy ->%list_elem_of_singleton. apply Hin. by right.
    + rewrite length_app. simpl. lia.
Qed.
End FirstVersionFacts.

(** X21. The first handler does not retry: for an order with the trigger
    status that is not in the ledger, whose details are fetched and with
    auto-print enabled, every copy from 1 to [printCopies] is attempted once
    and in order whatever the earlier copies returned, and the order enters
    the ledger whether the copies succeeded or failed, so that the same
    event again changes nothing. *)
Theorem first_handler_no_retry `{CopyPrinter} `{OrderStore} (cfg : CopiesConfig)
    (record : StatusRecord) (order : Order) (items : list OrderItem)
    (w : CopiesWorld) :
  sr_status record = Some (printOnStatus cfg) →
  NoDup (cw_printedOrders w) →
  (length (cw_printedOrders w) ≤ 100)%nat →
  sr_id record ∉ cw_printedOrders w →
  fetchOrderDetails (sr_id record) = Some (order, items) →
  cc_autoPrintEnabled cfg = true →
  let w' := handleNewOrder cfg (Some record) w in
  (∃ new,
     cw_attempts w' = cw_attempts w ++ new
     ∧ ca_copy <$> new = seqZ 1 (printCopies cfg)
     ∧ Forall (λ a, ca_order a = order ∧ ca_items a = items
                    ∧ ca_total a = printCopies cfg) new)
  ∧ sr_id record ∈ cw_printedOrders w'
  ∧ handleNewOrder cfg (Some record) w' = w'.
Proof.
  intros Hstatus Hnd Hlen Hnotin Hfetch Hauto w'.
  assert (Hw' : w' = mkCopiesWorld
                       (copiesTrim (JSSet.add (sr_id record) (cw_printedOrders w)))
                       (printCopies_loop cfg order items 1
                          (Z.to_nat (printCopies cfg)) (cw_attempts w))).
  { subst w'. unfold handleNewOrder. cbn [mbind option_bind].
    rewrite Hstatus, bool_decide_eq_true_2 by done. cbn [negb].
    unfold JSSet.has. rewrite bool_decide_eq_false_2 by done.
    by rewrite Hfetch, Hauto. }
  assert (Hin : sr_id record ∈ cw_printedOrders w').
  { rewrite Hw'. cbn [cw_printedOrders]. rewrite copiesTrim_add_fresh by done.
    destruct (decide _); apply elem_of_app; right; left. }
  split_and!.
  - destruct (printCopies_loop_spec cfg order items (Z.to_nat (printCopies cfg))
                1 (cw_attempts w)) as (new & Hnew & Hcopies & Hall).
    exists new. rewrite Hw'. cbn [cw_attempts]. split_and!; [done| |done].
    rewrite Hcopies. unfold seqZ. by rewrite Nat2Z.id.
  - done.
  - unfold handleNewOrder. cbn [mbind option_bind].
    rewrite Hstatus, bool_decide_eq_true_2 by done. cbn [negb].
    unfold JSSet.has. by rewrite bool_decide_eq_true_2.
Qed.

(** X22. The first handler ignores every event whose status is not the
    trigger status, and its ledger holds no more than 100 distinct ids
    after any sequence of events from process start. *)
Theorem first_handler_filter_and_bound `{CopyPrinter} `{OrderStore}
    (cfg : CopiesConfig) :
  (∀ payload_new w,
     payload_new ≫= sr_status ≠ Some (printOnStatus cfg) →
     handleNewOrder cfg payload_new w = w)
  ∧ (∀ payloads,
       let w := foldl (λ w p, handleNewOrder cfg p w) (mkCopiesWorld [] []) payloads in
       NoDup (cw_printedOrders w) ∧ (length (cw_printedOrders w) ≤ 100)%nat)
  ∧ (∀ payload_old payload_new,
       statusUpdateQualifies cfg payload_old payload_new = true
       ↔ payload_new ≫= sr_status = Some (printOnStatus cfg)
         ∧ payload_old ≫= sr_status ≠ Some (printOnStatus cfg)).
Proof.
  split_and!.
  - intros payload_new w Hne. unfold handleNewOrder.
    by rewrite bool_decide_eq_false_2.
  - intros payloads.
    assert (Hgen : ∀ w0,
              NoDup (cw_printedOrders w0) →
              (length (cw_printedOrders w0) ≤ COPIES_LEDGER_LIMIT)%nat →
              let w := foldl (λ w p, handleNewOrder cfg p w) w0 payloads in
              NoDup (cw_printedOrders w)
              ∧ (length (cw_printedOrders w) ≤ COPIES_LEDGER_LIMIT)%nat).
    { induction payloads as [|p rest IH]; intros w0 Hnd Hlen; [done|].
      cbn [foldl].
      destruct (handleNewOrder_ledger_ok cfg p w0 Hnd Hlen) as [Hnd' Hlen'].
      by apply IH. }
    apply Hgen; [constructor|simpl; unfold COPIES_LEDGER_LIMIT; lia].
  - intros payload_old payload_new. unfold statusUpdateQualifies.
    rewrite andb_true_iff, negb_true_iff, bool_decide_eq_false,
      bool_decide_eq_true.
    split.
    + intros [Hne Hnew]. split; [done|]. by rewrite <- Hnew.
    + intros [Hnew Hold]. split; [|done]. by rewrite Hnew.
Qed.

(** Both copies of the sample order fail, and the order is in the ledger
    all the same. *)
Lemma first_handler_no_retry_sample :
  let handle := @handleNewOrder FirstSample.failing Sample.store FirstSample.cfg
                  (Some FirstSample.record) in
  let w' := handle (mkCopiesWorld [] []) in
  sr_id FirstSample.record ∈ cw_printedOrders w'
  ∧ ca_success <$> cw_attempts w' = [false; false]
  ∧ handle w' = w'.
Proof.
  destruct (@first_handler_no_retry FirstSample.failing Sample.store
              FirstSample.cfg FirstSample.record
              (Sample.order (js "0")) Sample.items (mkCopiesWorld [] []))
    as (_ & Hin & Hagain).
  - reflexivity.
  - constructor.
  - simpl. lia.
  - apply not_elem_of_nil.
  - reflexivity.
  - reflexivity.
  - split_and!; [exact Hin|reflexivity|exact Hagain].
Defined.
